(** * A shallow embedding of the shell-execution gateway ([src/shell.ts])

    The development follows the class [ShellExecutor]: its allow-list, the
    working-directory validation against the base directory, the merge of
    the environments, the timeout computation, and the event handlers that
    [spawnCommand] installs on the child process.

    Strings are [String.string]; the numbers of the code (a timeout in
    milliseconds, an exit code) are taken as integers, [Z]; the allow-list
    is a JavaScript [Set], which iterates in insertion order, and is kept
    as a list in that order; environments are [gmap string string].  The
    child process is what the operating system makes of it: the sequence
    of events that reach the handlers of [spawnCommand]. *)

From Stdlib Require Import ZArith List Ascii String Bool Lia DecimalString.
From stdpp Require Import base option strings gmap fin_maps.
Import ListNotations.

Local Open Scope string_scope.
Local Open Scope Z_scope.

(** ** JavaScript truthiness of the values the code tests *)

Module Js.

(** [!s] is true exactly for the empty string. *)
Definition truthy_string (s : string) : bool :=
  match s with
  | EmptyString => false
  | String _ _ => true
  end.

(** A number is falsy when it is [0]. *)
Definition truthy_number (n : Z) : bool := negb (n =? 0).

(** [a || b] on an optional number and a number. *)
Definition or_number (o : option Z) (d : Z) : Z :=
  match o with
  | Some n => if truthy_number n then n else d
  | None => d
  end.

(** [a ?? b]: only [undefined] falls through to the default. *)
Definition nullish_number (o : option Z) (d : Z) : Z :=
  match o with
  | Some n => n
  | None => d
  end.

(** [String.prototype.startsWith]. *)
Definition startsWith (s pre : string) : bool := String.prefix pre s.

(** [Array.prototype.join]. *)
Definition join (sep : string) (l : list string) : string :=
  String.concat sep l.

End Js.

(** ** Node's [path] module, POSIX flavour

    [path.basename] and [path.resolve] belong to the runtime, not to the
    repository.  They are written here after the algorithm of Node's
    [lib/path.js]: [basename] skips trailing separators and returns what
    follows the last remaining one; [resolve] prepends the arguments from
    right to left (then the process's current directory) until the path is
    absolute, and normalises the segments. *)

Module Path.

Definition sep : ascii := "/"%char.

Definition is_sep (c : ascii) : bool := Ascii.eqb c sep.

Fixpoint drop_seps (l : list ascii) : list ascii :=
  match l with
  | c :: l' => if is_sep c then drop_seps l' else l
  | [] => []
  end.

Fixpoint take_segment (l : list ascii) : list ascii :=
  match l with
  | c :: l' => if is_sep c then [] else c :: take_segment l'
  | [] => []
  end.

(** [path.basename(p)] without a suffix argument: the scan goes from the
    end of the string. *)
Definition basename (p : string) : string :=
  string_of_list_ascii
    (rev (take_segment (drop_seps (rev (list_ascii_of_string p))))).

(** The segments between separators; ["a//b"] has the segments
    ["a"], [""], ["b"]. *)
Fixpoint segments (s : string) : list string :=
  match s with
  | EmptyString => [EmptyString]
  | String c s' =>
      if is_sep c then EmptyString :: segments s'
      else match segments s' with
           | h :: t => String c h :: t
           | [] => [String c EmptyString]
           end
  end.

(** One step of [normalizeString]: [acc] holds the segments kept so far,
    the last one first. *)
Definition normalize_step (allowAboveRoot : bool) (acc : list string)
    (seg : string) : list string :=
  if String.eqb seg "" then acc
  else if String.eqb seg "." then acc
  else if String.eqb seg ".." then
    match acc with
    | last :: acc' =>
        if String.eqb last ".." then
          (if allowAboveRoot then seg :: acc else acc)
        else acc'
    | [] => if allowAboveRoot then [seg] else []
    end
  else seg :: acc.

Definition normalize_segments (allowAboveRoot : bool) (segs : list string)
    : list string :=
  rev (fold_left (normalize_step allowAboveRoot) segs []).

Definition normalizeString (p : string) (allowAboveRoot : bool) : string :=
  Js.join "/" (normalize_segments allowAboveRoot (segments p)).

Definition isAbsolute (p : string) : bool :=
  match p with
  | String c _ => is_sep c
  | EmptyString => false
  end.

(** The loop of [resolve]: [ps] lists the arguments from the last to the
    first, followed by the current directory of the process. *)
Fixpoint resolve_loop (ps : list string) (resolvedPath : string)
    : string * bool :=
  match ps with
  | [] => (resolvedPath, false)
  | p :: ps' =>
      if Js.truthy_string p then
        let resolvedPath' := p +:+ "/" +:+ resolvedPath in
        if isAbsolute p then (resolvedPath', true)
        else resolve_loop ps' resolvedPath'
      else resolve_loop ps' resolvedPath
  end.

Definition resolve (processCwd : string) (args : list string) : string :=
  let '(resolvedPath, resolvedAbsolute) :=
    resolve_loop (rev args ++ [processCwd]) "" in
  let normalized := normalizeString resolvedPath (negb resolvedAbsolute) in
  if resolvedAbsolute then "/" +:+ normalized
  else if Js.truthy_string normalized then normalized else ".".

End Path.

(** ** The JavaScript [Set] of strings behind [allowedCommands]

    A [Set] keeps its elements in insertion order, which [Array.from] and
    the rejection message expose; [add] of a present element and [delete]
    of an absent one leave it as it is. *)

Module JsSet.

Definition has (s : list string) (x : string) : bool :=
  existsb (String.eqb x) s.

Definition add (s : list string) (x : string) : list string :=
  if has s x then s else s ++ [x].

Definition delete (s : list string) (x : string) : list string :=
  List.filter (fun y => negb (String.eqb x y)) s.

(** [new Set(iterable)]. *)
Definition of_list (l : list string) : list string :=
  fold_left add l [].

End JsSet.

(** ** Results, completions and the child process *)

(** The object every path of [executeCommand] resolves to. *)
Record ExecutionResult := mkResult {
  stdout : string;
  stderr : string;
  exitCode : Z;
  success : bool;
  error : option string
}.

(** How a synchronous call ends: it returns a value or throws an [Error]
    with a message. *)
Inductive Outcome (A : Type) : Type :=
| Returns (a : A)
| Throws (message : string).

Arguments Returns {A} a.
Arguments Throws {A} message.

(** The state of a promise once the child process has done everything it
    does: resolved with a value, rejected with an error, or still
    pending. *)
Inductive Promise (A : Type) : Type :=
| Resolved (a : A)
| Rejected (message : string)
| Pending.

Arguments Resolved {A} a.
Arguments Rejected {A} message.
Arguments Pending {A}.

(** [try { return await p } catch (error) { return handler(error.message) }]
    in an [async] function: a rejection of [p] is caught and becomes the
    value of the handler. *)
Definition try_await {A : Type} (p : Promise A) (handler : string -> A)
    : Promise A :=
  match p with
  | Rejected message => Resolved (handler message)
  | other => other
  end.

(** The caller of an [async] function sees an exception exactly when its
    promise rejects. *)
Definition rejected {A : Type} (p : Promise A) : bool :=
  match p with
  | Rejected _ => true
  | _ => false
  end.

(** The options [executeCommand] passes to [spawnCommand]. *)
Record SpawnOptions := mkOptions {
  opt_cwd : string;
  opt_env : gmap string string;
  opt_timeout : Z
}.

(** One call of [child_process.spawn]; [shell: true] and [stdio: 'pipe']
    are added to the options on every call. *)
Record SpawnCall := mkCall {
  call_command : string;
  call_args : list string;
  call_options : SpawnOptions
}.

(** What reaches the handlers of [spawnCommand] afterwards, in order:
    chunks on the two streams, the ['close'] event with the exit code
    ([None] for [null]: the process was ended by a signal), the ['error']
    event with the message of the operating system, and the expiry of the
    timer set with [setTimeout]. *)
Inductive ChildEvent : Type :=
| StdoutData (chunk : string)
| StderrData (chunk : string)
| Close (code : option Z)
| ErrorEvent (message : string)
| TimerFires.

(** [spawn] either throws at once (an argument it refuses) or returns a
    child whose events follow. *)
Inductive SpawnBehaviour : Type :=
| SpawnThrows (message : string)
| ChildRuns (events : list ChildEvent).

(** What lies outside the program: the current directory of the process,
    the directories that exist, and what the operating system does with a
    spawned command. *)
Record World := mkWorld {
  processCwd : string;
  existsSync : string -> bool;
  os_spawn : SpawnCall -> SpawnBehaviour
}.

(** The variables the closures of [spawnCommand] share, the state of the
    timer, whether [kill] was called, and the value the promise was
    resolved with (only the first [resolve] counts). *)
Record SpawnState := mkState {
  st_stdout : string;
  st_stderr : string;
  st_timer_pending : bool;
  st_killed : bool;
  st_settled : option ExecutionResult
}.

(** A call of [resolve] on a promise that may be settled already. *)
Definition resolve_with (r : ExecutionResult) (o : option ExecutionResult)
    : option ExecutionResult :=
  match o with
  | Some first => Some first
  | None => Some r
  end.

(** A number inside a template literal, in decimal. *)
Definition string_of_number (n : Z) : string :=
  NilZero.string_of_int (Z.to_int n).

Definition timeout_stderr (timeout : Z) : string :=
  "コマンドは" +:+ string_of_number timeout +:+ "ms後にタイムアウトしました".

Definition timeout_error : string := "コマンド実行がタイムアウトしました".

(** The handlers installed by [spawnCommand], one event at a time. *)
Definition on_event (timeout : Z) (s : SpawnState) (e : ChildEvent)
    : SpawnState :=
  match e with
  | StdoutData chunk =>
      mkState (st_stdout s +:+ chunk) (st_stderr s)
              (st_timer_pending s) (st_killed s) (st_settled s)
  | StderrData chunk =>
      mkState (st_stdout s) (st_stderr s +:+ chunk)
              (st_timer_pending s) (st_killed s) (st_settled s)
  | Close code =>
      mkState (st_stdout s) (st_stderr s) false (st_killed s)
        (resolve_with
           {| stdout := st_stdout s;
              stderr := st_stderr s;
              exitCode := match code with Some c => c | None => 1 end;
              success := match code with Some c => c =? 0 | None => false end;
              error := None |}
           (st_settled s))
  | ErrorEvent message =>
      mkState (st_stdout s) (st_stderr s) false (st_killed s)
        (resolve_with
           {| stdout := st_stdout s;
              stderr := message;
              exitCode := 1;
              success := false;
              error := Some message |}
           (st_settled s))
  | TimerFires =>
      if st_timer_pending s then
        mkState (st_stdout s) (st_stderr s) false true
          (resolve_with
             {| stdout := st_stdout s;
                stderr := timeout_stderr timeout;
                exitCode := 1;
                success := false;
                error := Some timeout_error |}
             (st_settled s))
      else s
  end.

Definition run_events (timeout : Z) (s : SpawnState) (evs : list ChildEvent)
    : SpawnState :=
  fold_left (on_event timeout) evs s.

(** The state when the executor of the promise has run: empty buffers, and
    the timer set when [options.timeout] is truthy. *)
Definition initial_state (timeout : Z) : SpawnState :=
  mkState "" "" (Js.truthy_number timeout) false None.

(** ** The class [ShellExecutor] *)

Record ShellExecutor := mkExecutor {
  allowedCommands : list string;
  baseDirectory : string;
  maxTimeout : Z;
  shellEnvironment : gmap string string
}.

(** The seed of the allow-list, in the order of the constructor. *)
Definition default_commands : list string :=
  [ "npm"; "yarn"; "pnpm"; "bun";
    "git";
    "ls"; "dir"; "find"; "mkdir"; "rmdir"; "cp"; "mv"; "rm"; "cat";
    "node"; "python"; "python3"; "tsc"; "eslint"; "prettier";
    "make"; "cargo"; "go";
    "docker"; "docker-compose";
    "echo"; "touch"; "grep" ].

(** [constructor(baseDir, shellEnv)]. *)
Definition new_ShellExecutor (baseDir : string)
    (shellEnv : gmap string string) : ShellExecutor :=
  {| allowedCommands := JsSet.of_list default_commands;
     baseDirectory := baseDir;
     maxTimeout := 60000;
     shellEnvironment := shellEnv |}.

Definition createErrorResponse (message : string) : ExecutionResult :=
  {| stdout := "";
     stderr := message;
     exitCode := 1;
     success := false;
     error := Some message |}.

Definition isCommandAllowed (ex : ShellExecutor) (command : string) : bool :=
  let commandName := Path.basename command in
  JsSet.has (allowedCommands ex) commandName.

Definition getAllowedCommands (ex : ShellExecutor) : list string :=
  allowedCommands ex.

Definition allowCommand (ex : ShellExecutor) (command : string)
    : ShellExecutor :=
  {| allowedCommands := JsSet.add (allowedCommands ex) command;
     baseDirectory := baseDirectory ex;
     maxTimeout := maxTimeout ex;
     shellEnvironment := shellEnvironment ex |}.

Definition disallowCommand (ex : ShellExecutor) (command : string)
    : ShellExecutor :=
  {| allowedCommands := JsSet.delete (allowedCommands ex) command;
     baseDirectory := baseDirectory ex;
     maxTimeout := maxTimeout ex;
     shellEnvironment := shellEnvironment ex |}.

Definition outside_message (cwd : string) : string :=
  "作業ディレクトリ " +:+ cwd +:+ " は許可されたベースディレクトリの外にあります".

Definition missing_message (resolvedPath : string) : string :=
  "ディレクトリが存在しません: " +:+ resolvedPath.

Definition validateWorkingDirectory (ex : ShellExecutor) (w : World)
    (cwd : option string) : Outcome string :=
  match cwd with
  | Some d =>
      if negb (Js.truthy_string d) then Returns (baseDirectory ex)
      else
        let resolvedPath := Path.resolve (processCwd w) [baseDirectory ex; d] in
        if negb (Js.startsWith resolvedPath (baseDirectory ex)) then
          Throws (outside_message d)
        else if negb (existsSync w resolvedPath) then
          Throws (missing_message resolvedPath)
        else Returns resolvedPath
  | None => Returns (baseDirectory ex)
  end.

(** [spawnCommand]: the promise it returns is resolved by the first
    handler that calls [resolve]; a throw of [spawn] inside the executor
    of the promise rejects it. *)
Definition spawnCommand (w : World) (command : string) (args : list string)
    (options : SpawnOptions) : Promise ExecutionResult :=
  match os_spawn w (mkCall command args options) with
  | SpawnThrows message => Rejected message
  | ChildRuns events =>
      match st_settled
              (run_events (opt_timeout options)
                 (initial_state (opt_timeout options)) events) with
      | Some r => Resolved r
      | None => Pending
      end
  end.

Definition no_command_message : string := "コマンドが指定されていません".

Definition not_allowed_message (ex : ShellExecutor) (command : string)
    : string :=
  "コマンドは許可されていません: " +:+ command
  +:+ "。許可されているコマンド: " +:+ Js.join ", " (allowedCommands ex).

Definition failed_message (message : string) : string :=
  "コマンドの実行に失敗しました: " +:+ message.

(** [{ ...this.shellEnvironment, ...(env || {}) }]: the keys of [env]
    are written after, and over, those of the shell environment. *)
Definition mergedEnv (ex : ShellExecutor)
    (env : option (gmap string string)) : gmap string string :=
  default ∅ env ∪ shellEnvironment ex.

(** [Math.min(timeout || this.maxTimeout, this.maxTimeout)]. *)
Definition effectiveTimeout (ex : ShellExecutor) (timeout : option Z) : Z :=
  Z.min (Js.or_number timeout (maxTimeout ex)) (maxTimeout ex).

(** What a call of [executeCommand] leaves behind: the state of the
    promise it returned, and the calls of [spawn] it made. *)
Record Run := mkRun {
  completion : Promise ExecutionResult;
  spawned : list SpawnCall
}.

(** The body of the outer [try] of [executeCommand]. *)
Definition executeCommand_try (ex : ShellExecutor) (w : World)
    (command : string) (args : list string) (cwd : option string)
    (env : option (gmap string string)) (timeout : option Z) : Run :=
  if negb (Js.truthy_string command) then
    mkRun (Resolved (createErrorResponse no_command_message)) []
  else if negb (isCommandAllowed ex command) then
    mkRun (Resolved (createErrorResponse (not_allowed_message ex command))) []
  else
    match validateWorkingDirectory ex w cwd with
    | Throws message => mkRun (Resolved (createErrorResponse message)) []
    | Returns workingDir =>
        let options :=
          {| opt_cwd := workingDir;
             opt_env := mergedEnv ex env;
             opt_timeout := effectiveTimeout ex timeout |} in
        mkRun (spawnCommand w command args options)
              [mkCall command args options]
    end.

(** [executeCommand]: the body above inside [try], and the [catch] that
    turns whatever it throws into an error response. *)
Definition executeCommand (ex : ShellExecutor) (w : World)
    (command : string) (args : list string) (cwd : option string)
    (env : option (gmap string string)) (timeout : option Z) : Run :=
  let body := executeCommand_try ex w command args cwd env timeout in
  mkRun
    (try_await (completion body)
       (fun message => createErrorResponse (failed_message message)))
    (spawned body).

(** ** What the specification calls containment

    Containment by path segments, as the specification words it: [p] is
    the base directory itself, or continues it after a separator. *)
Definition within (base p : string) : bool :=
  String.eqb p base
  || Js.startsWith p (if String.eqb base "/" then base else base +:+ "/").

(** The output a run of events has delivered on each stream. *)
Fixpoint captured_stdout (evs : list ChildEvent) : string :=
  match evs with
  | StdoutData chunk :: evs' => chunk +:+ captured_stdout evs'
  | _ :: evs' => captured_stdout evs'
  | [] => ""
  end.

Fixpoint captured_stderr (evs : list ChildEvent) : string :=
  match evs with
  | StderrData chunk :: evs' => chunk +:+ captured_stderr evs'
  | _ :: evs' => captured_stderr evs'
  | [] => ""
  end.

Definition is_data (e : ChildEvent) : bool :=
  match e with
  | StdoutData _ | StderrData _ => true
  | _ => false
  end.

(** An event whose handler calls [resolve]. *)
Definition is_terminal (e : ChildEvent) : bool := negb (is_data e).

(** A file name proper: not empty, and no separator in it. *)
Definition is_file_name (name : string) : bool :=
  Js.truthy_string name
  && forallb (fun c => negb (Path.is_sep c)) (list_ascii_of_string name).

(** [msg] contains [part]. *)
Definition names (msg part : string) : Prop :=
  exists pre post, msg = pre +:+ part +:+ post.

(** ** Worlds used in the examples *)

(** A world for the examples: the process runs in [/srv/app], and next
    to that directory lies [/srv/app-other]. *)
Definition sibling_world : World :=
  mkWorld "/srv/app"
    (fun p => String.eqb p "/srv/app" || String.eqb p "/srv/app-other")
    (fun _ => ChildRuns [StdoutData "x"; Close (Some 0)]).

(** A world where [spawn] itself refuses its arguments. *)
Definition throwing_world : World :=
  mkWorld "/srv/app" (fun _ => true)
    (fun _ => SpawnThrows "The argument 'args' is invalid").

(** A child that writes to both streams and outlives its timer. *)
Definition slow_world : World :=
  mkWorld "/srv/app" (fun _ => true)
    (fun _ => ChildRuns [StdoutData "out"; StderrData "warn"; TimerFires;
                         Close None]).

(** A child that cannot be started. *)
Definition failing_world : World :=
  mkWorld "/srv/app" (fun _ => true)
    (fun _ => ChildRuns [ErrorEvent "spawn /bin/sh EACCES"; Close (Some (-13))]).

(** A child that is ended by a signal after some output. *)
Definition signalled_world : World :=
  mkWorld "/srv/app" (fun _ => true)
    (fun _ => ChildRuns [StdoutData "a"; StderrData "b"; StdoutData "c";
                         Close None; TimerFires]).

(** Once a timer is set, the promise is pending only while the timer
    is. *)
Definition timer_covers (s : SpawnState) : Prop :=
  st_settled s = None -> st_timer_pending s = true.

(** ** Reading the environment of the user's shell

    [loadUserShellEnvironment] runs [env] in the user's shell and reads
    its output line by line with a regular expression: a name of one or
    more characters other than the equals sign, that sign, and the rest
    of the line.  Strings are sequences of bytes here, so the two line
    separators that take more than one byte in UTF-8 are recognised by
    their bytes. *)

Module ShellEnv.

Definition LF : ascii := ascii_of_nat 10.
Definition CR : ascii := ascii_of_nat 13.
Definition equals_sign : ascii := "="%char.

(** A double quote, as a string. *)
Definition dquote : string := String (ascii_of_nat 34) EmptyString.

(** [s.split(sep)] for a separator of one character. *)
Fixpoint split (sep : ascii) (s : string) : list string :=
  match s with
  | EmptyString => [EmptyString]
  | String c s' =>
      if Ascii.eqb c sep then EmptyString :: split sep s'
      else match split sep s' with
           | h :: t => String c h :: t
           | [] => [String c EmptyString]
           end
  end.

(** Whether a line terminator of JavaScript starts [s]: a line feed, a
    carriage return, or U+2028 or U+2029 (the bytes E2 80 A8 and
    E2 80 A9).  The dot of a regular expression matches anything else. *)
Definition line_terminator_at (s : string) : bool :=
  match s with
  | String c rest =>
      Ascii.eqb c LF || Ascii.eqb c CR
      || (Ascii.eqb c (ascii_of_nat 226)
          && match rest with
             | String c1 (String c2 _) =>
                 Ascii.eqb c1 (ascii_of_nat 128)
                 && (Ascii.eqb c2 (ascii_of_nat 168)
                     || Ascii.eqb c2 (ascii_of_nat 169))
             | _ => false
             end)
  | EmptyString => false
  end.

(** The second group, any number of dots up to the end of the input,
    matches all of [s]: no line terminator in it. *)
Fixpoint dot_star_to_end (s : string) : bool :=
  match s with
  | EmptyString => true
  | String _ rest => negb (line_terminator_at s) && dot_star_to_end rest
  end.

(** The first group and the sign: the characters before the first equals
    sign, and what follows that sign when there is one. *)
Fixpoint break_equals (s : string) : string * option string :=
  match s with
  | EmptyString => (EmptyString, None)
  | String c rest =>
      if Ascii.eqb c equals_sign then (EmptyString, Some rest)
      else let '(name, value) := break_equals rest in (String c name, value)
  end.

(** [line.match] with the regular expression: the two groups of a
    match. *)
Definition match_line (line : string) : option (string * string) :=
  let '(name, rest) := break_equals line in
  match rest with
  | Some value =>
      if Js.truthy_string name && dot_star_to_end value
      then Some (name, value) else None
  | None => None
  end.

(** [envVars[name] = value] on an object literal: the key [__proto__] is
    the accessor of the prototype, which ignores a string. *)
Definition set_property (envVars : gmap string string) (name value : string)
    : gmap string string :=
  if String.eqb name "__proto__" then envVars else <[name := value]> envVars.

(** The body of the [forEach] over the lines. *)
Definition read_line (envVars : gmap string string) (line : string)
    : gmap string string :=
  match match_line line with
  | Some (name, value) => set_property envVars name value
  | None => envVars
  end.

(** [envOutput.split('\n').forEach(...)] from an empty object. *)
Definition parse_env_output (envOutput : string) : gmap string string :=
  fold_left read_line (split LF envOutput) ∅.

Definition zsh_command : string :=
  "zsh -c " +:+ dquote
  +:+ "source ~/.zshrc 2>/dev/null || true; source ~/.zshenv 2>/dev/null || true; env"
  +:+ dquote.

Definition bash_command : string :=
  "bash -c " +:+ dquote
  +:+ "source ~/.bashrc 2>/dev/null || true; source ~/.bash_profile 2>/dev/null || true; env"
  +:+ dquote.

(** [process.env.SHELL || '/bin/bash']. *)
Definition detected_shell (processEnv : gmap string string) : string :=
  match processEnv !! "SHELL" with
  | Some shell => if Js.truthy_string shell then shell else "/bin/bash"
  | None => "/bin/bash"
  end.

(** The command handed to [execSync], chosen by the basename of the
    shell. *)
Definition env_command (shell : string) : string :=
  let shellName := Path.basename shell in
  if String.eqb shellName "zsh" then zsh_command
  else if String.eqb shellName "bash" then bash_command
  else shell +:+ " -c " +:+ dquote +:+ "env" +:+ dquote.

(** [loadUserShellEnvironment]: [os.homedir()] is called before the [try]
    and its throw is not caught; a throw of [execSync] is, and gives
    [process.env].  The list of profile files, which is built and not
    used, and the logging are left out. *)
Definition loadUserShellEnvironment (homedir : Outcome string)
    (processEnv : gmap string string) (execSync : string -> Outcome string)
    : Outcome (gmap string string) :=
  match homedir with
  | Throws message => Throws message
  | Returns _ =>
      match execSync (env_command (detected_shell processEnv)) with
      | Returns envOutput => Returns (parse_env_output envOutput)
      | Throws _ => Returns processEnv
      end
  end.

(** What [env] prints for a list of variables: a line for each. *)
Fixpoint env_lines (vars : list (string * string)) : string :=
  match vars with
  | (name, value) :: vars' =>
      name +:+ "=" +:+ value +:+ String LF (env_lines vars')
  | [] => EmptyString
  end.

(** No occurrence of [c] in [s]. *)
Definition free_of (c : ascii) (s : string) : bool :=
  forallb (fun x => negb (Ascii.eqb x c)) (list_ascii_of_string s).

(** A name [match_line] can return and [set_property] stores. *)
Definition storable_name (name : string) : bool :=
  Js.truthy_string name && free_of equals_sign name
  && negb (String.eqb name "__proto__").

End ShellEnv.

(** A variable [env] prints on one line and the code stores: a name
    without equals sign or line feed, and a value without line
    terminator. *)
Definition one_line_var (var : string * string) : bool :=
  ShellEnv.storable_name var.1
  && ShellEnv.free_of ShellEnv.LF var.1
  && ShellEnv.dot_star_to_end var.2.

(** ** The executors a program can hold

    The fields of the class are private: an executor comes from the
    constructor and changes only through [allowCommand] and
    [disallowCommand]. *)
Inductive reachable : ShellExecutor -> Prop :=
| reachable_new (baseDir : string) (shellEnv : gmap string string) :
    reachable (new_ShellExecutor baseDir shellEnv)
| reachable_allow (ex : ShellExecutor) (command : string) :
    reachable ex -> reachable (allowCommand ex command)
| reachable_disallow (ex : ShellExecutor) (command : string) :
    reachable ex -> reachable (disallowCommand ex command).

(** ** Paths written segment by segment *)

(** A segment that names a file or directory: a file name other than
    the two that [path.resolve] reads as the directory itself and its
    parent. *)
Definition plain_name (s : string) : bool :=
  is_file_name s && negb (String.eqb s ".") && negb (String.eqb s "..").

(** The absolute path with the segments [segs]. *)
Definition abs_path (segs : list string) : string :=
  "/" +:+ Js.join "/" segs.

(** What stands before the last segment of an absolute path. *)
Definition before_last (segs : list string) : string :=
  match segs with
  | [] => "/"
  | _ => abs_path segs +:+ "/"
  end.

(** ** The two tools of the server

    The handlers registered with [server.tool].  A request has passed the
    schema when a handler runs, so [args.args] is an array (the schema
    gives it the default [[]]) and is truthy. *)

(** The text of the one content item of a response, and its flag. *)
Record ToolResponse := mkResponse {
  response_text : string;
  isError : bool
}.

(** [result.stderr || result.error || "Unknown error"]. *)
Definition error_text (r : ExecutionResult) : string :=
  if Js.truthy_string (stderr r) then stderr r
  else match error r with
       | Some e => if Js.truthy_string e then e else "Unknown error"
       | None => "Unknown error"
       end.

(** What the handler of [shell_execute] returns for a result. *)
Definition render_result (r : ExecutionResult) : ToolResponse :=
  if negb (success r) then mkResponse ("Error: " +:+ error_text r) true
  else mkResponse (stdout r) false.

(** The handler of [shell_execute]: it awaits [executeCommand] inside a
    [try] whose [catch] answers with the message of the error. *)
Definition shell_execute (ex : ShellExecutor) (w : World)
    (command : string) (args : list string) (cwd : option string)
    (env : option (gmap string string)) (timeout : option Z)
    : Promise ToolResponse :=
  match completion (executeCommand ex w command args cwd env timeout) with
  | Resolved result => Resolved (render_result result)
  | Rejected message => Resolved (mkResponse ("Error: " +:+ message) true)
  | Pending => Pending
  end.

(** The handler of [shell_get_allowed_commands]. *)
Definition shell_get_allowed_commands (ex : ShellExecutor) : ToolResponse :=
  mkResponse
    ("Available commands:" +:+ String ShellEnv.LF
       (Js.join ", " (getAllowedCommands ex)))
    false.

(** The invariant of every result: [success] says that the exit code is
    0, and a successful result carries no error. *)
Definition coherent (r : ExecutionResult) : Prop :=
  success r = (exitCode r =? 0) /\ (success r = true -> error r = None).

(** ** A command the shell cannot run

    [spawn] is called with [shell: true]: the process it starts is the
    shell, with the command line as its argument.  A command whose binary
    does not exist, or may not be executed, does not keep the shell from
    starting: the shell writes a diagnostic to its standard error and
    exits, with status 127 for a command that is not found and 126 for
    one that may not be executed. *)
Definition shell_reports (diagnostic : string) (status : Z)
    : list ChildEvent :=
  [StderrData diagnostic; Close (Some status)].

(** The diagnostic of the shell, which ends in a line feed. *)
Definition not_found_diagnostic : string :=
  "/bin/sh: 1: bun: not found" +:+ String ShellEnv.LF "".

(** A world where the binary of the command is not installed. *)
Definition missing_binary_world : World :=
  mkWorld "/srv/app" (fun _ => true)
    (fun _ => ChildRuns (shell_reports not_found_diagnostic 127)).

(** * Properties *)

(** ** Node's [path] functions on examples *)

Example basename_dir : Path.basename "/usr/bin/git" = "git".
Proof. reflexivity. Qed.

Example basename_trailing : Path.basename "/usr/bin//" = "bin".
Proof. reflexivity. Qed.

Example resolve_rel : Path.resolve "/home/u" ["/srv/app"; "../x/./y/"] = "/srv/x/y".
Proof. reflexivity. Qed.

Example resolve_abs : Path.resolve "/home/u" ["/srv/app"; "/tmp"] = "/tmp".
Proof. reflexivity. Qed.

Example resolve_cwd : Path.resolve "/home/u" ["app"; "sub"] = "/home/u/app/sub".
Proof. reflexivity. Qed.

Example resolve_parent : Path.resolve "/home/u" ["/srv/app"; ".."] = "/srv".
Proof. reflexivity. Qed.

Example resolve_above_root : Path.resolve "/" ["/srv"; "../../../etc"] = "/etc".
Proof. reflexivity. Qed.

Example resolve_trailing : Path.resolve "/" ["/srv/app/"; "."] = "/srv/app".
Proof. reflexivity. Qed.

(** ** Strings *)

Lemma string_app_cons (ch : ascii) (a b : string) :
  String ch a +:+ b = String ch (a +:+ b).
Proof. reflexivity. Qed.

Lemma string_app_nil_l (a : string) : "" +:+ a = a.
Proof. reflexivity. Qed.

Lemma string_app_assoc (a b c : string) : (a +:+ b) +:+ c = a +:+ b +:+ c.
Proof.
  induction a as [|ch a IH].
  - reflexivity.
  - rewrite !string_app_cons. now rewrite IH.
Qed.

Lemma string_app_nil_r (a : string) : a +:+ "" = a.
Proof.
  induction a as [|ch a IH].
  - reflexivity.
  - rewrite string_app_cons. now rewrite IH.
Qed.

Lemma prefix_cons (ch : ascii) (a s : string) :
  String.prefix (String ch a) (String ch s) = String.prefix a s.
Proof.
  change (String.prefix (String ch a) (String ch s))
    with (if ascii_dec ch ch then String.prefix a s else false).
  destruct (ascii_dec ch ch) as [_|ne]; [reflexivity | now elim ne].
Qed.

Lemma prefix_app (a b : string) : String.prefix a (a +:+ b) = true.
Proof.
  induction a as [|ch a IH].
  - now destruct b.
  - rewrite string_app_cons, prefix_cons. exact IH.
Qed.

Lemma prefix_app_l (a b s : string) :
  String.prefix (a +:+ b) s = true -> String.prefix a s = true.
Proof.
  revert s; induction a as [|ch a IH]; intros s H.
  - now destruct s.
  - rewrite string_app_cons in H. destruct s as [|ch' s]; [discriminate H|].
    destruct (ascii_dec ch ch') as [<-|ne].
    + rewrite prefix_cons in *. now apply IH.
    + change (String.prefix (String ch (a +:+ b)) (String ch' s))
        with (if ascii_dec ch ch' then String.prefix (a +:+ b) s else false)
        in H.
      destruct (ascii_dec ch ch'); [contradiction | discriminate H].
Qed.

Lemma prefix_refl (a : string) : String.prefix a a = true.
Proof.
  rewrite <- (string_app_nil_r a) at 2. apply prefix_app.
Qed.

(** ** [path.basename] *)

Lemma list_ascii_app (a b : string) :
  list_ascii_of_string (a +:+ b)
  = (list_ascii_of_string a ++ list_ascii_of_string b)%list.
Proof.
  induction a as [|ch a IH]; [reflexivity|].
  rewrite string_app_cons. simpl. now rewrite IH.
Qed.

Lemma take_segment_app (l rest : list ascii) :
  forallb (fun c => negb (Path.is_sep c)) l = true ->
  Path.take_segment (l ++ Path.sep :: rest)%list = l.
Proof.
  induction l as [|c l IH]; intros H; simpl.
  - reflexivity.
  - simpl in H. apply andb_true_iff in H as [Hc Hl].
    apply negb_true_iff in Hc. rewrite Hc. now rewrite IH.
Qed.

Lemma take_segment_all (l : list ascii) :
  forallb (fun c => negb (Path.is_sep c)) l = true ->
  Path.take_segment l = l.
Proof.
  induction l as [|c l IH]; intros H; simpl.
  - reflexivity.
  - simpl in H. apply andb_true_iff in H as [Hc Hl].
    apply negb_true_iff in Hc. rewrite Hc. now rewrite IH.
Qed.

Lemma drop_seps_no_sep (l : list ascii) :
  l <> [] -> forallb (fun c => negb (Path.is_sep c)) l = true ->
  forall rest, Path.drop_seps (l ++ rest)%list = (l ++ rest)%list.
Proof.
  destruct l as [|c l]; intros Hne H rest; [contradiction|].
  simpl in *. apply andb_true_iff in H as [Hc _].
  apply negb_true_iff in Hc. now rewrite Hc.
Qed.

Lemma forallb_rev {A : Type} (f : A -> bool) (l : list A) :
  forallb f (rev l) = forallb f l.
Proof.
  induction l as [|x l IH]; simpl; [reflexivity|].
  rewrite forallb_app, IH. simpl. rewrite andb_true_r. apply andb_comm.
Qed.

(** A directory in front of a file name does not change the basename. *)
Lemma basename_strips_directory (dir name : string) :
  is_file_name name = true ->
  Path.basename (dir +:+ "/" +:+ name) = name
  /\ Path.basename name = name.
Proof.
  unfold is_file_name, Path.basename. intros H.
  apply andb_true_iff in H as [Hne Hns].
  assert (rev (list_ascii_of_string name) <> []) as Hrev.
  { destruct name as [|c n]; [discriminate Hne|]. simpl.
    intros E. now apply app_eq_nil in E as [_ E]. }
  assert (forallb (fun c => negb (Path.is_sep c))
            (rev (list_ascii_of_string name)) = true) as Hrs
    by now rewrite forallb_rev.
  split.
  - rewrite !list_ascii_app. change (list_ascii_of_string "/")
      with [Path.sep]. rewrite !rev_app_distr. simpl rev at 2.
    rewrite <- app_assoc. simpl app at 2.
    rewrite (drop_seps_no_sep _ Hrev Hrs).
    rewrite (take_segment_app _ _ Hrs), rev_involutive.
    apply string_of_list_ascii_of_string.
  - rewrite <- (app_nil_r (rev (list_ascii_of_string name))).
    rewrite (drop_seps_no_sep _ Hrev Hrs), app_nil_r.
    rewrite (take_segment_all _ Hrs), rev_involutive.
    apply string_of_list_ascii_of_string.
Qed.

(** ** The allow-list *)

Lemma has_In (s : list string) (x : string) :
  JsSet.has s x = true <-> In x s.
Proof.
  unfold JsSet.has. rewrite existsb_exists. split.
  - intros (y & Hy & E). apply String.eqb_eq in E. now subst.
  - intros H. exists x. split; [exact H | apply String.eqb_refl].
Qed.

Lemma has_add (s : list string) (x y : string) :
  JsSet.has (JsSet.add s x) y = String.eqb y x || JsSet.has s y.
Proof.
  unfold JsSet.add. destruct (JsSet.has s x) eqn:Hx.
  - destruct (String.eqb_spec y x) as [->|]; [now rewrite Hx | reflexivity].
  - unfold JsSet.has. rewrite existsb_app. simpl.
    rewrite orb_false_r. apply orb_comm.
Qed.

Lemma has_delete (s : list string) (x y : string) :
  JsSet.has (JsSet.delete s x) y = negb (String.eqb y x) && JsSet.has s y.
Proof.
  unfold JsSet.has, JsSet.delete. induction s as [|z s IH]; simpl.
  - now rewrite andb_false_r.
  - destruct (String.eqb_spec x z) as [->|Hxz]; simpl.
    + rewrite IH. destruct (String.eqb_spec y z); simpl; reflexivity.
    + rewrite IH. destruct (String.eqb_spec y z) as [->|]; simpl.
      * destruct (String.eqb_spec z x) as [->|]; [now elim Hxz | reflexivity].
      * reflexivity.
Qed.

Lemma add_present (s : list string) (x : string) :
  JsSet.has s x = true -> JsSet.add s x = s.
Proof. unfold JsSet.add. now intros ->. Qed.

Lemma delete_absent (s : list string) (x : string) :
  JsSet.has s x = false -> JsSet.delete s x = s.
Proof.
  unfold JsSet.has, JsSet.delete. induction s as [|z s IH]; simpl.
  - reflexivity.
  - intros H. apply orb_false_elim in H as [Hz Hs].
    rewrite Hz. simpl. now rewrite IH.
Qed.

Lemma add_NoDup (s : list string) (x : string) :
  NoDup s -> NoDup (JsSet.add s x).
Proof.
  intros H. unfold JsSet.add. destruct (JsSet.has s x) eqn:Hx; [exact H|].
  apply NoDup_app. repeat split.
  - exact H.
  - intros y Hy Hy'. apply list_elem_of_In in Hy.
    apply list_elem_of_singleton in Hy'. subst y.
    apply has_In in Hy. congruence.
  - apply NoDup_singleton.
Qed.

Lemma delete_NoDup (s : list string) (x : string) :
  NoDup s -> NoDup (JsSet.delete s x).
Proof.
  unfold JsSet.delete. rewrite !NoDup_ListNoDup.
  intros H. now apply List.NoDup_filter.
Qed.

Example allowed_by_basename :
  isCommandAllowed (new_ShellExecutor "/srv/app" ∅) "/usr/local/bin/git" = true.
Proof. reflexivity. Qed.

Example allowed_case_sensitive :
  isCommandAllowed (new_ShellExecutor "/srv/app" ∅) "GIT" = false.
Proof. reflexivity. Qed.

Lemma executor_eta (ex : ShellExecutor) (l : list string) :
  l = allowedCommands ex ->
  mkExecutor l (baseDirectory ex) (maxTimeout ex) (shellEnvironment ex) = ex.
Proof. intros ->. now destruct ex. Qed.

(** C4: [isCommandAllowed c] holds exactly when the basename of [c] is a
    member of the allow-list (membership is equality of strings, so the
    case of the letters counts), and a directory in front of a file name
    plays no part; [allowCommand] and [disallowCommand] show at once in
    [isCommandAllowed], doing either twice is the same as doing it once,
    and allowing a present entry or disallowing an absent one leaves the
    executor as it was. *)
Theorem isCommandAllowed_basename_membership
    (ex : ShellExecutor) (c n : string) :
  (isCommandAllowed ex c = true
     <-> In (Path.basename c) (allowedCommands ex))
  /\ (is_file_name n = true ->
      forall dir,
        isCommandAllowed ex (dir +:+ "/" +:+ n) = true
        <-> In n (allowedCommands ex))
  /\ isCommandAllowed (allowCommand ex n) c
     = String.eqb (Path.basename c) n || isCommandAllowed ex c
  /\ isCommandAllowed (disallowCommand ex n) c
     = negb (String.eqb (Path.basename c) n) && isCommandAllowed ex c
  /\ allowCommand (allowCommand ex n) n = allowCommand ex n
  /\ disallowCommand (disallowCommand ex n) n = disallowCommand ex n
  /\ (In n (allowedCommands ex) -> allowCommand ex n = ex)
  /\ (~ In n (allowedCommands ex) -> disallowCommand ex n = ex).
Proof.
  unfold isCommandAllowed, allowCommand, disallowCommand; simpl.
  split; [apply has_In|].
  split.
  { intros Hn dir.
    rewrite (proj1 (basename_strips_directory dir n Hn)). apply has_In. }
  split; [apply has_add|].
  split; [apply has_delete|].
  split.
  { f_equal. apply add_present. rewrite has_add.
    now rewrite String.eqb_refl. }
  split.
  { f_equal. apply delete_absent. rewrite has_delete.
    now rewrite String.eqb_refl. }
  split.
  - intros H. apply executor_eta, add_present. now apply has_In.
  - intros H. apply executor_eta, delete_absent.
    destruct (JsSet.has (allowedCommands ex) n) eqn:E; [|reflexivity].
    apply has_In in E. contradiction.
Qed.

Lemma isCommandAllowed_basename_membership_witness :
  let ex := new_ShellExecutor "/srv/app" ∅ in
  isCommandAllowed ex "/usr/local/bin/git" = true
  /\ allowCommand ex "git" = ex
  /\ disallowCommand ex "curl" = ex.
Proof.
  intros ex.
  destruct (isCommandAllowed_basename_membership ex "/usr/bin/git" "git")
    as (_ & Hdir & _ & _ & _ & _ & Hpresent & _).
  destruct (isCommandAllowed_basename_membership ex "/usr/bin/git" "curl")
    as (_ & _ & _ & _ & _ & _ & _ & Habsent).
  assert (In "git" (allowedCommands ex)) as Hgit
    by exact (proj1 (has_In (allowedCommands ex) "git") eq_refl).
  split; [|split].
  - exact (proj2 (Hdir eq_refl "/usr/local/bin") Hgit).
  - exact (Hpresent Hgit).
  - apply Habsent. intros H.
    apply (proj2 (has_In (allowedCommands ex) "curl")) in H.
    vm_compute in H. discriminate H.
Defined.

(** ** Working directory *)

Lemma within_startsWith (base p : string) :
  within base p = true -> Js.startsWith p base = true.
Proof.
  unfold within, Js.startsWith. intros H.
  apply orb_true_iff in H as [H|H].
  - apply String.eqb_eq in H. subst. apply prefix_refl.
  - destruct (String.eqb base "/"); [exact H|].
    now apply prefix_app_l in H.
Qed.

(** What the check of [validateWorkingDirectory] gets right: a directory
    that is the base or continues it after a separator, and exists, is
    returned in its resolved form. *)
Lemma validateWorkingDirectory_within (ex : ShellExecutor) (w : World)
    (d : string) :
  Js.truthy_string d = true ->
  within (baseDirectory ex)
    (Path.resolve (processCwd w) [baseDirectory ex; d]) = true ->
  existsSync w (Path.resolve (processCwd w) [baseDirectory ex; d]) = true ->
  validateWorkingDirectory ex w (Some d)
  = Returns (Path.resolve (processCwd w) [baseDirectory ex; d]).
Proof.
  intros Hd Hin Hex. unfold validateWorkingDirectory.
  rewrite Hd. simpl. rewrite (within_startsWith _ _ Hin). simpl.
  now rewrite Hex.
Qed.

(** And a directory whose resolved form does not even start with the
    characters of the base is refused. *)
Lemma validateWorkingDirectory_outside (ex : ShellExecutor) (w : World)
    (d : string) :
  Js.truthy_string d = true ->
  Js.startsWith (Path.resolve (processCwd w) [baseDirectory ex; d])
    (baseDirectory ex) = false ->
  validateWorkingDirectory ex w (Some d) = Throws (outside_message d).
Proof.
  intros Hd Hout. unfold validateWorkingDirectory.
  rewrite Hd. simpl. now rewrite Hout.
Qed.

(** C9: without a working-directory override the validation returns the
    base directory as it is, whatever the file system holds and whatever
    the base directory is. *)
Theorem validateWorkingDirectory_absent (ex : ShellExecutor) (w : World) :
  validateWorkingDirectory ex w None = Returns (baseDirectory ex).
Proof. reflexivity. Qed.

Example validateWorkingDirectory_absent_missing_base :
  validateWorkingDirectory (new_ShellExecutor "/nowhere" ∅)
    (mkWorld "/" (fun _ => false) (fun _ => ChildRuns [])) None
  = Returns "/nowhere".
Proof. reflexivity. Qed.

(** C1: the containment check compares characters, not path segments.
    With the base directory [/srv/app], the existing sibling directory
    [/srv/app-other] lies outside the base (it neither is the base nor
    continues it after a separator), and yet the validation returns it,
    for the absolute and for the relative spelling, and [executeCommand]
    starts the command there. *)
Theorem validateWorkingDirectory_sibling_prefix :
  let ex := new_ShellExecutor "/srv/app" ∅ in
  Path.resolve (processCwd sibling_world) ["/srv/app"; "/srv/app-other"]
  = "/srv/app-other"
  /\ within "/srv/app" "/srv/app-other" = false
  /\ validateWorkingDirectory ex sibling_world (Some "/srv/app-other")
     = Returns "/srv/app-other"
  /\ validateWorkingDirectory ex sibling_world (Some "../app-other")
     = Returns "/srv/app-other"
  /\ map (fun c => opt_cwd (call_options c))
       (spawned (executeCommand ex sibling_world "ls" []
                   (Some "/srv/app-other") None None))
     = ["/srv/app-other"].
Proof. vm_compute. repeat split. Qed.

Example validateWorkingDirectory_child :
  validateWorkingDirectory (new_ShellExecutor "/srv/app" ∅)
    (mkWorld "/" (fun _ => true) (fun _ => ChildRuns [])) (Some "sub/dir/")
  = Returns "/srv/app/sub/dir".
Proof. reflexivity. Qed.

(** A base directory written with a trailing separator is not a prefix of
    its own resolved form. *)
Example validateWorkingDirectory_trailing_separator :
  validateWorkingDirectory (new_ShellExecutor "/srv/app/" ∅)
    (mkWorld "/" (fun _ => true) (fun _ => ChildRuns [])) (Some ".")
  = Throws (outside_message ".").
Proof. reflexivity. Qed.

Example validateWorkingDirectory_escape :
  validateWorkingDirectory (new_ShellExecutor "/srv/app" ∅)
    (mkWorld "/" (fun _ => true) (fun _ => ChildRuns [])) (Some "../../etc")
  = Throws (outside_message "../../etc").
Proof. reflexivity. Qed.

(** ** The handlers of the child process *)

Lemma settled_stays (timeout : Z) (evs : list ChildEvent) :
  forall (s : SpawnState) (r : ExecutionResult),
    st_settled s = Some r ->
    st_settled (run_events timeout s evs) = Some r.
Proof.
  unfold run_events.
  induction evs as [|e evs IH]; intros s r Hs; simpl; [exact Hs|].
  apply IH. destruct e; simpl; try now rewrite Hs.
  destruct (st_timer_pending s); simpl; now rewrite Hs.
Qed.

(** Chunks of output only grow the two buffers. *)
Lemma run_events_data (timeout : Z) (evs : list ChildEvent) :
  forall s : SpawnState,
    forallb is_data evs = true ->
    run_events timeout s evs
    = mkState (st_stdout s +:+ captured_stdout evs)
              (st_stderr s +:+ captured_stderr evs)
              (st_timer_pending s) (st_killed s) (st_settled s).
Proof.
  unfold run_events.
  induction evs as [|e evs IH]; intros s Hd.
  - simpl. rewrite !string_app_nil_r. now destruct s.
  - simpl in Hd. apply andb_true_iff in Hd as [He Hd].
    destruct e; try discriminate He; simpl; rewrite (IH _ Hd); simpl;
      now rewrite ?string_app_assoc.
Qed.

Lemma run_events_app (timeout : Z) (s : SpawnState)
    (evs evs' : list ChildEvent) :
  run_events timeout s (evs ++ evs')
  = run_events timeout (run_events timeout s evs) evs'.
Proof. unfold run_events. apply fold_left_app. Qed.

Lemma timer_covers_step (timeout : Z) (s : SpawnState) (e : ChildEvent) :
  timer_covers s -> timer_covers (on_event timeout s e).
Proof.
  unfold timer_covers. intros H.
  destruct e; simpl; try exact H.
  - destruct (st_settled s); intros Hs; simpl in Hs; discriminate Hs.
  - destruct (st_settled s); intros Hs; simpl in Hs; discriminate Hs.
  - destruct (st_timer_pending s) eqn:Hp; simpl.
    + destruct (st_settled s); intros Hs; simpl in Hs; discriminate Hs.
    + intros Hs. discriminate (H Hs).
Qed.

Lemma terminal_settles (timeout : Z) (s : SpawnState) (e : ChildEvent) :
  timer_covers s -> is_terminal e = true ->
  exists r, st_settled (on_event timeout s e) = Some r.
Proof.
  unfold timer_covers. intros H He.
  destruct e; try discriminate He; simpl.
  - destruct (st_settled s); simpl; eauto.
  - destruct (st_settled s); simpl; eauto.
  - destruct (st_settled s) as [r|] eqn:Hs.
    + exists r. destruct (st_timer_pending s); simpl; now rewrite ?Hs.
    + rewrite (H eq_refl). simpl. rewrite ?Hs. simpl. eauto.
Qed.

Lemma run_events_settles (timeout : Z) (evs : list ChildEvent) :
  forall s : SpawnState,
    timer_covers s -> existsb is_terminal evs = true ->
    exists r, st_settled (run_events timeout s evs) = Some r.
Proof.
  induction evs as [|e evs IH]; intros s Hc Ht; [discriminate Ht|].
  simpl in Ht. change (run_events timeout s (e :: evs))
    with (run_events timeout (on_event timeout s e) evs).
  destruct (is_terminal e) eqn:He.
  - destruct (terminal_settles timeout s e Hc He) as [r Hr].
    exists r. now apply settled_stays.
  - apply IH; [now apply timer_covers_step | exact Ht].
Qed.

Lemma effectiveTimeout_truthy (ex : ShellExecutor) (timeout : option Z) :
  maxTimeout ex <> 0 ->
  Js.truthy_number (effectiveTimeout ex timeout) = true.
Proof.
  intros Hmax. unfold effectiveTimeout, Js.or_number, Js.truthy_number.
  apply negb_true_iff, Z.eqb_neq.
  destruct timeout as [n|]; [destruct (n =? 0) eqn:E; simpl|]; lia.
Qed.

(** ** [executeCommand] *)

(** A call of [spawn] is made only after the three checks, and with the
    validated directory, the merged environment and the capped timeout. *)
Lemma executeCommand_spawned_inv (ex : ShellExecutor) (w : World)
    (command : string) (args : list string) (cwd : option string)
    (env : option (gmap string string)) (timeout : option Z)
    (call : SpawnCall) :
  In call (spawned (executeCommand ex w command args cwd env timeout)) ->
  exists workingDir,
    Js.truthy_string command = true
    /\ isCommandAllowed ex command = true
    /\ validateWorkingDirectory ex w cwd = Returns workingDir
    /\ call = mkCall command args
                (mkOptions workingDir (mergedEnv ex env)
                   (effectiveTimeout ex timeout))
    /\ completion (executeCommand ex w command args cwd env timeout)
       = try_await (spawnCommand w command args (call_options call))
           (fun message => createErrorResponse (failed_message message)).
Proof.
  unfold executeCommand, executeCommand_try.
  destruct (Js.truthy_string command); simpl; [|contradiction].
  destruct (isCommandAllowed ex command); simpl; [|contradiction].
  destruct (validateWorkingDirectory ex w cwd) as [wd|m]; simpl;
    [|contradiction].
  intros [<-|[]]. exists wd. simpl. repeat split; reflexivity.
Qed.

(** When all three checks pass, exactly one call of [spawn] is made. *)
Lemma executeCommand_spawns (ex : ShellExecutor) (w : World)
    (command : string) (args : list string) (cwd : option string)
    (env : option (gmap string string)) (timeout : option Z)
    (workingDir : string) :
  Js.truthy_string command = true ->
  isCommandAllowed ex command = true ->
  validateWorkingDirectory ex w cwd = Returns workingDir ->
  spawned (executeCommand ex w command args cwd env timeout)
  = [mkCall command args
       (mkOptions workingDir (mergedEnv ex env)
          (effectiveTimeout ex timeout))].
Proof.
  intros Hc Ha Hv. unfold executeCommand, executeCommand_try.
  now rewrite Hc, Ha, Hv.
Qed.

(** C2: the promise of [executeCommand] never rejects, so its caller never
    sees an exception.  A failed validation resolves it without a call of
    [spawn]; a throw of [spawn] is caught and becomes an error response;
    and once the child closes, fails, or the timer expires, the promise is
    resolved with a result. *)
Theorem executeCommand_never_rejects (ex : ShellExecutor) (w : World)
    (command : string) (args : list string) (cwd : option string)
    (env : option (gmap string string)) (timeout : option Z) :
  let run := executeCommand ex w command args cwd env timeout in
  rejected (completion run) = false
  /\ (spawned run = [] -> exists r, completion run = Resolved r)
  /\ (forall call message,
        In call (spawned run) ->
        os_spawn w call = SpawnThrows message ->
        completion run
        = Resolved (createErrorResponse (failed_message message)))
  /\ (forall call evs,
        maxTimeout ex <> 0 ->
        In call (spawned run) ->
        os_spawn w call = ChildRuns evs ->
        existsb is_terminal evs = true ->
        exists r, completion run = Resolved r).
Proof.
  intros run. subst run. split; [|split; [|split]].
  - unfold executeCommand.
    now destruct (completion (executeCommand_try _ _ _ _ _ _ _)).
  - unfold executeCommand, executeCommand_try.
    destruct (Js.truthy_string command); simpl; [|eauto].
    destruct (isCommandAllowed ex command); simpl; [|eauto].
    destruct (validateWorkingDirectory ex w cwd); simpl; [|eauto].
    discriminate.
  - intros call message Hin Hos.
    destruct (executeCommand_spawned_inv _ _ _ _ _ _ _ _ Hin)
      as (wd & _ & _ & _ & Hcall & ->).
    unfold spawnCommand. rewrite Hcall in Hos |- *. simpl.
    now rewrite Hos.
  - intros call evs Hmax Hin Hos Hterm.
    destruct (executeCommand_spawned_inv _ _ _ _ _ _ _ _ Hin)
      as (wd & _ & _ & _ & Hcall & ->).
    unfold spawnCommand. rewrite Hcall in Hos |- *. simpl.
    rewrite Hos.
    destruct (run_events_settles (effectiveTimeout ex timeout) evs
                (initial_state (effectiveTimeout ex timeout)))
      as [r Hr]; [|exact Hterm|].
    + intros _. simpl. now apply effectiveTimeout_truthy.
    + rewrite Hr. simpl. eauto.
Qed.

Lemma executeCommand_never_rejects_witness :
  completion (executeCommand (new_ShellExecutor "/srv/app" ∅)
                throwing_world "ls" [] None None None)
  = Resolved (createErrorResponse
                (failed_message "The argument 'args' is invalid"))
  /\ exists r,
       completion (executeCommand (new_ShellExecutor "/srv/app" ∅)
                     sibling_world "ls" [] None None (Some 5))
       = Resolved r.
Proof.
  split.
  - apply (proj1 (proj2 (proj2
      (executeCommand_never_rejects (new_ShellExecutor "/srv/app" ∅)
         throwing_world "ls" [] None None None)))
      (mkCall "ls" [] (mkOptions "/srv/app" ∅ 60000))).
    + vm_compute. left. reflexivity.
    + reflexivity.
  - apply (proj2 (proj2 (proj2
      (executeCommand_never_rejects (new_ShellExecutor "/srv/app" ∅)
         sibling_world "ls" [] None None (Some 5))))
      (mkCall "ls" [] (mkOptions "/srv/app" ∅ 5))
      [StdoutData "x"; Close (Some 0)]).
    + vm_compute. discriminate.
    + vm_compute. left. reflexivity.
    + reflexivity.
    + reflexivity.
Defined.

(** C5: the checks come in a fixed order and the first that fails ends
    the call, with no call of [spawn] and a result that has
    [success = false]: an empty command is refused whatever the allow-list
    and the directory are; a command that is not allowed is refused
    whatever the directory is, and the message in the [stderr] and in the
    [error] of the result contains the command; a directory that fails
    the validation is refused with the message of the validation in both
    fields.  When all three checks pass, one call of [spawn] is made. *)
Theorem executeCommand_validation_order (ex : ShellExecutor) (w : World)
    (command : string) (args : list string) (cwd : option string)
    (env : option (gmap string string)) (timeout : option Z) :
  let run := executeCommand ex w command args cwd env timeout in
  (command = "" ->
     spawned run = []
     /\ exists r,
          completion run = Resolved r
          /\ success r = false /\ exitCode r = 1 /\ stdout r = ""
          /\ stderr r = no_command_message
          /\ error r = Some no_command_message)
  /\ (command <> "" -> isCommandAllowed ex command = false ->
      spawned run = []
      /\ exists r,
           completion run = Resolved r
           /\ success r = false /\ exitCode r = 1 /\ stdout r = ""
           /\ stderr r = not_allowed_message ex command
           /\ error r = Some (not_allowed_message ex command)
           /\ names (stderr r) command
           /\ exists m, error r = Some m /\ names m command)
  /\ (forall message,
        command <> "" -> isCommandAllowed ex command = true ->
        validateWorkingDirectory ex w cwd = Throws message ->
        spawned run = []
        /\ exists r,
             completion run = Resolved r
             /\ success r = false /\ exitCode r = 1 /\ stdout r = ""
             /\ stderr r = message
             /\ error r = Some message)
  /\ (forall workingDir,
        command <> "" -> isCommandAllowed ex command = true ->
        validateWorkingDirectory ex w cwd = Returns workingDir ->
        length (spawned run) = 1%nat).
Proof.
  intros run. subst run. unfold executeCommand, executeCommand_try.
  assert (names (not_allowed_message ex command) command) as Hnames.
  { unfold names, not_allowed_message.
    exists "コマンドは許可されていません: ". eexists. reflexivity. }
  split; [|split; [|split]].
  - intros ->. simpl. split; [reflexivity|].
    eexists. split; [reflexivity|]. simpl. repeat split.
  - intros Hc Ha. destruct command; [contradiction|]. simpl.
    rewrite Ha. simpl. split; [reflexivity|].
    eexists. split; [reflexivity|]. simpl.
    repeat (split; [reflexivity|]). split; [exact Hnames|].
    eexists. split; [reflexivity | exact Hnames].
  - intros message Hc Ha Hv. destruct command; [contradiction|]. simpl.
    rewrite Ha, Hv. simpl. split; [reflexivity|].
    eexists. split; [reflexivity|]. simpl. repeat split.
  - intros wd Hc Ha Hv. destruct command; [contradiction|]. simpl.
    now rewrite Ha, Hv.
Qed.

Lemma executeCommand_validation_order_witness :
  let ex := new_ShellExecutor "/srv/app" ∅ in
  (exists r,
     completion (executeCommand ex sibling_world "" [] (Some "/etc")
                   (Some ∅) None) = Resolved r
     /\ stderr r = no_command_message)
  /\ (exists r,
        completion (executeCommand ex sibling_world "curl" [] (Some "/etc")
                      None None) = Resolved r
        /\ names (stderr r) "curl")
  /\ (exists r,
        completion (executeCommand ex sibling_world "ls" [] (Some "/etc")
                      None None) = Resolved r
        /\ stderr r = outside_message "/etc").
Proof.
  intros ex. split; [|split].
  - destruct (proj1 (executeCommand_validation_order ex sibling_world ""
                       [] (Some "/etc") (Some ∅) None) eq_refl)
      as (_ & r & Hr & _ & _ & _ & Hs & _).
    exists r. split; assumption.
  - assert ("curl" <> "") as Hc by discriminate.
    assert (isCommandAllowed ex "curl" = false) as Ha
      by (vm_compute; reflexivity).
    destruct (proj1 (proj2
      (executeCommand_validation_order ex sibling_world "curl"
         [] (Some "/etc") None None)) Hc Ha)
      as (_ & r & Hr & _ & _ & _ & _ & _ & Hn & _).
    exists r. split; assumption.
  - assert ("ls" <> "") as Hc by discriminate.
    assert (isCommandAllowed ex "ls" = true) as Ha
      by (vm_compute; reflexivity).
    assert (validateWorkingDirectory ex sibling_world (Some "/etc")
            = Throws (outside_message "/etc")) as Hv
      by (vm_compute; reflexivity).
    destruct (proj1 (proj2 (proj2
      (executeCommand_validation_order ex sibling_world "ls"
         [] (Some "/etc") None None))) _ Hc Ha Hv)
      as (_ & r & Hr & _ & _ & _ & Hs & _).
    exists r. split; assumption.
Defined.

(** C6 (as the code has it): the timeout handed to [spawn] is the
    requested one capped at [maxTimeout] when a non-zero timeout is
    requested, and [maxTimeout] when none is requested or the requested
    one is [0]; the constructor sets [maxTimeout] to 60000, and the
    allow-list operations leave it alone. *)
Theorem executeCommand_timeout (ex : ShellExecutor) (w : World)
    (command : string) (args : list string) (cwd : option string)
    (env : option (gmap string string)) (timeout : option Z)
    (call : SpawnCall) :
  In call (spawned (executeCommand ex w command args cwd env timeout)) ->
  opt_timeout (call_options call)
  = match timeout with
    | Some n => if n =? 0 then maxTimeout ex else Z.min n (maxTimeout ex)
    | None => maxTimeout ex
    end
  /\ (forall baseDir shellEnv,
        maxTimeout (new_ShellExecutor baseDir shellEnv) = 60000)
  /\ (forall n, maxTimeout (allowCommand ex n) = maxTimeout ex
                /\ maxTimeout (disallowCommand ex n) = maxTimeout ex).
Proof.
  intros Hin.
  destruct (executeCommand_spawned_inv _ _ _ _ _ _ _ _ Hin)
    as (wd & _ & _ & _ & -> & _).
  simpl. split; [|split; [reflexivity | intros n; split; reflexivity]].
  unfold effectiveTimeout, Js.or_number, Js.truthy_number.
  destruct timeout as [n|]; [destruct (n =? 0); simpl|]; lia.
Qed.

Lemma executeCommand_timeout_witness :
  let call := mkCall "ls" [] (mkOptions "/srv/app" ∅ 1500) in
  In call (spawned (executeCommand (new_ShellExecutor "/srv/app" ∅)
                      sibling_world "ls" [] None None (Some 1500)))
  /\ opt_timeout (call_options call) = Z.min 1500 60000.
Proof.
  intros call.
  assert (In call (spawned (executeCommand (new_ShellExecutor "/srv/app" ∅)
                              sibling_world "ls" [] None None (Some 1500))))
    as Hin by (vm_compute; left; reflexivity).
  split; [exact Hin|].
  exact (proj1 (executeCommand_timeout (new_ShellExecutor "/srv/app" ∅)
                  sibling_world "ls" [] None None (Some 1500) call Hin)).
Defined.

(** C6, where the claim fails: a requested timeout of [0] is not used as
    given; the command runs with 60000, while the formula with [??] gives
    [0]. *)
Lemma executeCommand_timeout_zero :
  let ex := new_ShellExecutor "/srv/app" ∅ in
  map (fun c => opt_timeout (call_options c))
    (spawned (executeCommand ex sibling_world "ls" [] None None (Some 0)))
  = [60000]
  /\ Z.min (Js.nullish_number (Some 0) (maxTimeout ex)) (maxTimeout ex) = 0
  /\ effectiveTimeout ex (Some 0)
     <> Z.min (Js.nullish_number (Some 0) (maxTimeout ex)) (maxTimeout ex).
Proof. vm_compute. repeat split. discriminate. Qed.

(** C8: in the environment handed to [spawn], a key of the request-level
    overrides has the value of the overrides, whether or not the shell
    environment defines it too, and a key the overrides do not define has
    whatever the shell environment gives it. *)
Theorem executeCommand_env (ex : ShellExecutor) (w : World)
    (command : string) (args : list string) (cwd : option string)
    (env : option (gmap string string)) (timeout : option Z)
    (call : SpawnCall) (k : string) :
  In call (spawned (executeCommand ex w command args cwd env timeout)) ->
  (forall v, default ∅ env !! k = Some v ->
             opt_env (call_options call) !! k = Some v)
  /\ (default ∅ env !! k = None ->
      opt_env (call_options call) !! k = shellEnvironment ex !! k).
Proof.
  intros Hin.
  destruct (executeCommand_spawned_inv _ _ _ _ _ _ _ _ Hin)
    as (wd & _ & _ & _ & -> & _).
  simpl. unfold mergedEnv. split.
  - intros v Hv. now apply lookup_union_Some_l.
  - intros Hn. now apply lookup_union_r.
Qed.

Lemma executeCommand_env_witness :
  let ex := new_ShellExecutor "/srv/app"
              (<["PATH" := "/usr/bin"]> (<["LANG" := "C"]> ∅)) in
  let env := Some (<["PATH" := "/opt/bin"]> ∅) in
  let merged := mergedEnv ex env in
  merged !! "PATH" = Some "/opt/bin" /\ merged !! "LANG" = Some "C".
Proof.
  intros ex env merged.
  assert (In (mkCall "ls" [] (mkOptions "/srv/app" merged 60000))
            (spawned (executeCommand ex sibling_world "ls" [] None env None)))
    as Hin by (vm_compute; left; reflexivity).
  split.
  - apply (proj1 (executeCommand_env ex sibling_world "ls" [] None env None
                    _ "PATH" Hin)).
    vm_compute. reflexivity.
  - refine (eq_trans
      (proj2 (executeCommand_env ex sibling_world "ls" [] None env None
                _ "LANG" Hin) _) _).
    + vm_compute. reflexivity.
    + vm_compute. reflexivity.
Defined.

(** ** [spawnCommand] *)

(** The promise is resolved by the first terminal event after the chunks
    of output; what follows it changes nothing. *)
Lemma spawnCommand_first_terminal (w : World) (command : string)
    (args : list string) (options : SpawnOptions)
    (pre : list ChildEvent) (e : ChildEvent) (rest : list ChildEvent)
    (r : ExecutionResult) :
  os_spawn w (mkCall command args options) = ChildRuns (pre ++ e :: rest) ->
  forallb is_data pre = true ->
  st_settled
    (on_event (opt_timeout options)
       (mkState (captured_stdout pre) (captured_stderr pre)
          (Js.truthy_number (opt_timeout options)) false None) e)
  = Some r ->
  spawnCommand w command args options = Resolved r.
Proof.
  intros Hos Hpre Hr. unfold spawnCommand. rewrite Hos.
  rewrite run_events_app, (run_events_data _ _ _ Hpre).
  change (run_events ?t ?s (e :: rest))
    with (run_events t (on_event t s e) rest).
  unfold initial_state; simpl st_stdout; simpl st_stderr;
    simpl st_timer_pending; simpl st_killed; simpl st_settled.
  rewrite !string_app_nil_l.
  now rewrite (settled_stays _ _ _ _ Hr).
Qed.

(** C3 (as the code has it): when the timer expires before the child has
    closed or failed, [kill] is called on the child and the promise is
    resolved with exit code 1, [success = false], the fixed timeout text
    in [error], the standard output captured so far in [stdout], and in
    [stderr] a message that states the timeout in milliseconds. *)
Theorem spawnCommand_timeout (w : World) (command : string)
    (args : list string) (options : SpawnOptions)
    (pre rest : list ChildEvent) :
  os_spawn w (mkCall command args options)
  = ChildRuns (pre ++ TimerFires :: rest) ->
  forallb is_data pre = true ->
  Js.truthy_number (opt_timeout options) = true ->
  spawnCommand w command args options
  = Resolved {| stdout := captured_stdout pre;
                stderr := timeout_stderr (opt_timeout options);
                exitCode := 1;
                success := false;
                error := Some timeout_error |}
  /\ st_killed
       (run_events (opt_timeout options)
          (initial_state (opt_timeout options)) (pre ++ [TimerFires]))
     = true.
Proof.
  intros Hos Hpre Ht. split.
  - apply (spawnCommand_first_terminal _ _ _ _ _ _ _ _ Hos Hpre).
    simpl. now rewrite Ht.
  - rewrite run_events_app, (run_events_data _ _ _ Hpre).
    unfold run_events, initial_state. simpl. now rewrite Ht.
Qed.

Lemma spawnCommand_timeout_witness :
  spawnCommand slow_world "node" ["server.js"] (mkOptions "/srv/app" ∅ 1000)
  = Resolved {| stdout := "out";
                stderr := timeout_stderr 1000;
                exitCode := 1;
                success := false;
                error := Some timeout_error |}.
Proof.
  exact (proj1 (spawnCommand_timeout slow_world "node" ["server.js"]
                  (mkOptions "/srv/app" ∅ 1000)
                  [StdoutData "out"; StderrData "warn"] [Close None]
                  eq_refl eq_refl eq_refl)).
Defined.

(** C3, where the claim fails: what the child wrote to its standard error
    before the timer expired is not in the result. *)
Lemma spawnCommand_timeout_drops_stderr :
  exists r,
    spawnCommand slow_world "node" ["server.js"]
      (mkOptions "/srv/app" ∅ 1000) = Resolved r
    /\ captured_stderr [StdoutData "out"; StderrData "warn"] = "warn"
    /\ stdout r = "out"
    /\ stderr r = timeout_stderr 1000
    /\ stderr r <> "warn".
Proof.
  eexists. split; [vm_compute; reflexivity|].
  vm_compute. repeat split. discriminate.
Qed.

(** C7 (as the code has it): a process that fails to start at all is one
    where the shell itself cannot be started, and the first thing the
    child does is to fail with an ['error'] event: the promise is then
    resolved with exit code 1, [success = false], the message of the
    operating system in [error] and also in [stderr], and an empty
    [stdout].  A command whose binary is not found, or may not be
    executed, takes the other path: the shell starts, reports it and
    exits, and the result is that of a child that closed, with the
    status of the shell as exit code, [success = false], no [error],
    the diagnostic of the shell in [stderr] and an empty [stdout]. *)
Theorem spawnCommand_start_failure (w : World) (command : string)
    (args : list string) (options : SpawnOptions) :
  (forall message rest,
     os_spawn w (mkCall command args options)
     = ChildRuns (ErrorEvent message :: rest) ->
     spawnCommand w command args options
     = Resolved {| stdout := "";
                   stderr := message;
                   exitCode := 1;
                   success := false;
                   error := Some message |})
  /\ (forall diagnostic status rest,
        os_spawn w (mkCall command args options)
        = ChildRuns (shell_reports diagnostic status ++ rest) ->
        status <> 0 ->
        spawnCommand w command args options
        = Resolved {| stdout := "";
                      stderr := diagnostic;
                      exitCode := status;
                      success := false;
                      error := None |}).
Proof.
  split.
  - intros message rest Hos.
    now apply (spawnCommand_first_terminal _ _ _ _ [] _ _ _ Hos).
  - intros diagnostic status rest Hos Hst.
    apply (spawnCommand_first_terminal _ _ _ _ [StderrData diagnostic]
             (Close (Some status)) rest); [exact Hos | reflexivity|].
    simpl. apply Z.eqb_neq in Hst.
    now rewrite Hst, string_app_nil_r.
Qed.

Lemma spawnCommand_start_failure_witness :
  spawnCommand failing_world "git" ["status"] (mkOptions "/srv/app" ∅ 60000)
  = Resolved {| stdout := "";
                stderr := "spawn /bin/sh EACCES";
                exitCode := 1;
                success := false;
                error := Some "spawn /bin/sh EACCES" |}
  /\ spawnCommand missing_binary_world "bun" ["--version"]
       (mkOptions "/srv/app" ∅ 60000)
     = Resolved {| stdout := "";
                   stderr := not_found_diagnostic;
                   exitCode := 127;
                   success := false;
                   error := None |}.
Proof.
  split.
  - exact (proj1 (spawnCommand_start_failure failing_world "git" ["status"]
                    (mkOptions "/srv/app" ∅ 60000))
             "spawn /bin/sh EACCES" [Close (Some (-13))] eq_refl).
  - refine (proj2 (spawnCommand_start_failure missing_binary_world "bun"
                     ["--version"] (mkOptions "/srv/app" ∅ 60000))
              not_found_diagnostic 127 [] eq_refl _).
    discriminate.
Defined.

(** C7, where the claim fails.  For a binary that is not found the shell
    starts and exits with 127: the exit code is not 1, there is no
    [error], and [stderr] holds the diagnostic of the shell.  And where
    the shell itself cannot be started, the [stderr] of the result is not
    empty: it repeats the message of the operating system. *)
Lemma spawnCommand_missing_binary :
  (exists r,
     spawnCommand missing_binary_world "bun" ["--version"]
       (mkOptions "/srv/app" ∅ 60000) = Resolved r
     /\ exitCode r = 127
     /\ exitCode r <> 1
     /\ error r = None
     /\ stderr r = not_found_diagnostic
     /\ stderr r <> "")
  /\ (exists r,
        spawnCommand failing_world "git" ["status"]
          (mkOptions "/srv/app" ∅ 60000) = Resolved r
        /\ exitCode r = 1
        /\ error r = Some "spawn /bin/sh EACCES"
        /\ stdout r = ""
        /\ stderr r = "spawn /bin/sh EACCES"
        /\ stderr r <> "").
Proof.
  split.
  - eexists. split; [vm_compute; reflexivity|].
    vm_compute. repeat split; discriminate.
  - eexists. split; [vm_compute; reflexivity|].
    vm_compute. repeat split. discriminate.
Qed.

(** C10: when the child closes before the timer expires and without an
    ['error'] event, the result carries both captured streams, no [error],
    the exit code of the child, or 1 when that code is [null], and
    [success] is true exactly when the code is 0; so a child ended by a
    signal gives exit code 1 and [success = false]. *)
Theorem spawnCommand_close (w : World) (command : string)
    (args : list string) (options : SpawnOptions)
    (pre : list ChildEvent) (code : option Z) (rest : list ChildEvent) :
  os_spawn w (mkCall command args options)
  = ChildRuns (pre ++ Close code :: rest) ->
  forallb is_data pre = true ->
  exists r,
    spawnCommand w command args options = Resolved r
    /\ stdout r = captured_stdout pre
    /\ stderr r = captured_stderr pre
    /\ error r = None
    /\ exitCode r = match code with Some c => c | None => 1 end
    /\ (success r = true <-> code = Some 0)
    /\ (code = None -> exitCode r = 1 /\ success r = false).
Proof.
  intros Hos Hpre. eexists. split.
  - apply (spawnCommand_first_terminal _ _ _ _ _ _ _ _ Hos Hpre).
    reflexivity.
  - simpl. repeat split.
    + destruct code as [c|]; [|discriminate].
      intros Hc. apply Z.eqb_eq in Hc. now subst.
    + now intros ->.
    + now subst.
    + now subst.
Qed.

Lemma spawnCommand_close_witness :
  exists r,
    spawnCommand signalled_world "make" [] (mkOptions "/srv/app" ∅ 60000)
    = Resolved r
    /\ stdout r = "ac" /\ stderr r = "b"
    /\ exitCode r = 1 /\ success r = false.
Proof.
  destruct (spawnCommand_close signalled_world "make" []
              (mkOptions "/srv/app" ∅ 60000)
              [StdoutData "a"; StderrData "b"; StdoutData "c"] None
              [TimerFires] eq_refl eq_refl)
    as (r & Hr & Hout & Herr & _ & _ & _ & Hsig).
  exists r. destruct (Hsig eq_refl) as [Hcode Hsucc].
  repeat split; assumption.
Defined.

(** ** The environment of the user's shell *)

Lemma free_of_cons (c x : ascii) (s : string) :
  ShellEnv.free_of c (String x s)
  = negb (Ascii.eqb x c) && ShellEnv.free_of c s.
Proof. reflexivity. Qed.

Lemma break_equals_app (name value : string) :
  ShellEnv.free_of ShellEnv.equals_sign name = true ->
  ShellEnv.break_equals (name +:+ "=" +:+ value) = (name, Some value).
Proof.
  induction name as [|c name IH]; intros H.
  - reflexivity.
  - rewrite free_of_cons in H. apply andb_true_iff in H as [Hc Hn].
    apply negb_true_iff in Hc. rewrite string_app_cons. simpl.
    rewrite Hc. now rewrite (IH Hn).
Qed.

Lemma break_equals_some (line name value : string) :
  ShellEnv.break_equals line = (name, Some value) ->
  line = name +:+ "=" +:+ value
  /\ ShellEnv.free_of ShellEnv.equals_sign name = true.
Proof.
  revert name. induction line as [|c line IH]; intros name H; simpl in H.
  - discriminate H.
  - destruct (Ascii.eqb c ShellEnv.equals_sign) eqn:Hc.
    + injection H as <- <-. apply Ascii.eqb_eq in Hc. subst c.
      split; reflexivity.
    + destruct (ShellEnv.break_equals line) as [n v] eqn:Hb.
      injection H as <- ->. destruct (IH n eq_refl) as [-> Hfree].
      split; [reflexivity|].
      rewrite free_of_cons, Hc. exact Hfree.
Qed.

Lemma break_equals_none (line name : string) :
  ShellEnv.break_equals line = (name, None) ->
  ShellEnv.free_of ShellEnv.equals_sign line = true.
Proof.
  revert name. induction line as [|c line IH]; intros name H; simpl in H.
  - reflexivity.
  - destruct (Ascii.eqb c ShellEnv.equals_sign) eqn:Hc; [discriminate H|].
    destruct (ShellEnv.break_equals line) as [n v] eqn:Hb.
    injection H as <- ->. rewrite free_of_cons, Hc. now apply (IH n).
Qed.

(** What the regular expression accepts, and its two groups. *)
Lemma match_line_spec (line name value : string) :
  ShellEnv.match_line line = Some (name, value)
  <-> line = name +:+ "=" +:+ value
      /\ Js.truthy_string name = true
      /\ ShellEnv.free_of ShellEnv.equals_sign name = true
      /\ ShellEnv.dot_star_to_end value = true.
Proof.
  unfold ShellEnv.match_line. split.
  - destruct (ShellEnv.break_equals line) as [n [v|]] eqn:Hb;
      [|discriminate].
    destruct (Js.truthy_string n && ShellEnv.dot_star_to_end v) eqn:Hc;
      [|discriminate].
    intros H. injection H as <- <-.
    apply andb_true_iff in Hc as [Hn Hv].
    destruct (break_equals_some _ _ _ Hb) as [Hl Hf]. tauto.
  - intros (-> & Hn & Hf & Hv).
    rewrite (break_equals_app _ _ Hf), Hn, Hv. reflexivity.
Qed.

(** X1: a line matches exactly when it is a name, an equals sign and a
    value, where the name is not empty and has no equals sign and the
    value has no line terminator; the groups are that name and that
    value, so the value keeps every later equals sign. *)
Theorem match_line_iff (line name value : string) :
  ShellEnv.match_line line = Some (name, value)
  <-> line = name +:+ "=" +:+ value
      /\ Js.truthy_string name = true
      /\ ShellEnv.free_of ShellEnv.equals_sign name = true
      /\ ShellEnv.dot_star_to_end value = true.
Proof. apply match_line_spec. Qed.

Lemma match_line_iff_witness :
  ShellEnv.match_line "OPTS=a=b" = Some ("OPTS", "a=b").
Proof.
  apply (proj2 (match_line_iff "OPTS=a=b" "OPTS" "a=b")).
  repeat split.
Defined.

(** A line without an equals sign, or with nothing in front of it,
    matches nothing. *)
Lemma match_line_no_equals (line : string) :
  ShellEnv.free_of ShellEnv.equals_sign line = true ->
  ShellEnv.match_line line = None.
Proof.
  intros Hf. destruct (ShellEnv.match_line line) as [[n v]|] eqn:Hm;
    [|reflexivity].
  apply match_line_spec in Hm as (-> & _ & _ & _).
  exfalso. clear -Hf. induction n as [|c n IH].
  - discriminate Hf.
  - rewrite string_app_cons, free_of_cons in Hf.
    apply andb_true_iff in Hf as [_ Hf]. now apply IH.
Qed.

Lemma split_nonempty (sep : ascii) (s : string) : ShellEnv.split sep s <> [].
Proof.
  destruct s as [|c s]; simpl; [discriminate|].
  destruct (Ascii.eqb c sep); [discriminate|].
  destruct (ShellEnv.split sep s); discriminate.
Qed.

Lemma split_app (sep : ascii) (a b : string) :
  ShellEnv.split sep (a +:+ String sep b)
  = (ShellEnv.split sep a ++ ShellEnv.split sep b)%list.
Proof.
  induction a as [|c a IH].
  - simpl. now rewrite Ascii.eqb_refl.
  - rewrite string_app_cons. simpl. rewrite IH.
    destruct (Ascii.eqb c sep); [reflexivity|].
    destruct (ShellEnv.split sep a) as [|h t] eqn:Hs; [|reflexivity].
    now apply split_nonempty in Hs.
Qed.

Lemma split_free (sep : ascii) (a : string) :
  ShellEnv.free_of sep a = true -> ShellEnv.split sep a = [a].
Proof.
  induction a as [|c a IH]; intros H; [reflexivity|].
  rewrite free_of_cons in H. apply andb_true_iff in H as [Hc Ha].
  apply negb_true_iff in Hc. simpl. rewrite Hc. now rewrite (IH Ha).
Qed.

Lemma free_of_app (c : ascii) (a b : string) :
  ShellEnv.free_of c (a +:+ b)
  = ShellEnv.free_of c a && ShellEnv.free_of c b.
Proof.
  unfold ShellEnv.free_of. now rewrite list_ascii_app, forallb_app.
Qed.

Lemma dot_star_free_of_LF (s : string) :
  ShellEnv.dot_star_to_end s = true ->
  ShellEnv.free_of ShellEnv.LF s = true.
Proof.
  induction s as [|c s IH]; intros H; [reflexivity|].
  simpl in H. apply andb_true_iff in H as [Hc Hs].
  rewrite free_of_cons, (IH Hs), andb_true_r.
  apply negb_true_iff in Hc. apply orb_false_elim in Hc as [Hc _].
  apply orb_false_elim in Hc as [Hc _]. now rewrite Hc.
Qed.

(** The output is read line by line: what stands after a line feed is
    read on top of what stood before it. *)
Lemma parse_env_output_app (a b : string) :
  ShellEnv.parse_env_output (a +:+ String ShellEnv.LF b)
  = fold_left ShellEnv.read_line (ShellEnv.split ShellEnv.LF b)
      (ShellEnv.parse_env_output a).
Proof.
  unfold ShellEnv.parse_env_output. now rewrite split_app, fold_left_app.
Qed.

Lemma read_line_var (m : gmap string string) (name value : string) :
  one_line_var (name, value) = true ->
  ShellEnv.read_line m (name +:+ "=" +:+ value) = <[name := value]> m.
Proof.
  unfold one_line_var, ShellEnv.storable_name. simpl. intros H.
  apply andb_true_iff in H as [H Hv]. apply andb_true_iff in H as [H _].
  apply andb_true_iff in H as [H Hp]. apply andb_true_iff in H as [Hn Hf].
  unfold ShellEnv.read_line.
  rewrite (proj2 (match_line_spec _ name value)) by tauto.
  unfold ShellEnv.set_property. apply negb_true_iff in Hp. now rewrite Hp.
Qed.

Lemma var_line_free_of_LF (name value : string) :
  one_line_var (name, value) = true ->
  ShellEnv.free_of ShellEnv.LF (name +:+ "=" +:+ value) = true.
Proof.
  unfold one_line_var. simpl. intros H.
  apply andb_true_iff in H as [H Hv]. apply andb_true_iff in H as [_ Hl].
  rewrite !free_of_app, Hl, (dot_star_free_of_LF _ Hv). reflexivity.
Qed.

Lemma fold_read_env_lines (vars : list (string * string)) :
  forallb one_line_var vars = true ->
  forall m : gmap string string,
    fold_left ShellEnv.read_line
      (ShellEnv.split ShellEnv.LF (ShellEnv.env_lines vars)) m
    = fold_left (fun (acc : gmap string string) p => <[p.1 := p.2]> acc)
        vars m.
Proof.
  induction vars as [|[name value] vars IH]; intros H m.
  - reflexivity.
  - simpl in H. apply andb_true_iff in H as [Hv Hvars].
    replace (ShellEnv.env_lines ((name, value) :: vars))
      with ((name +:+ "=" +:+ value)
            +:+ String ShellEnv.LF (ShellEnv.env_lines vars))
      by (simpl; now rewrite !string_app_assoc).
    rewrite split_app, (split_free _ _ (var_line_free_of_LF _ _ Hv)).
    simpl. rewrite (read_line_var _ _ _ Hv). now apply IH.
Qed.

(** X2: reading back what [env] prints for a list of one-line variables
    gives those variables, and of two lines with the same name the later
    one counts. *)
Theorem parse_env_output_env_lines (vars : list (string * string)) :
  forallb one_line_var vars = true ->
  ShellEnv.parse_env_output (ShellEnv.env_lines vars)
  = list_to_map (rev vars).
Proof.
  intros H. unfold ShellEnv.parse_env_output.
  rewrite (fold_read_env_lines _ H). unfold list_to_map.
  now rewrite <- fold_left_rev_right.
Qed.

Lemma parse_env_output_env_lines_witness :
  ShellEnv.parse_env_output
    (ShellEnv.env_lines [("PATH", "/bin"); ("LANG", "C"); ("PATH", "/opt")])
  = list_to_map [("PATH", "/opt"); ("LANG", "C"); ("PATH", "/bin")].
Proof.
  exact (parse_env_output_env_lines
           [("PATH", "/bin"); ("LANG", "C"); ("PATH", "/opt")] eq_refl).
Defined.

(** X3: whatever the shell prints, every name in the environment read
    from it is not empty, has no equals sign and is not [__proto__], and
    every value is free of line terminators. *)
Theorem parse_env_output_names (envOutput name value : string) :
  ShellEnv.parse_env_output envOutput !! name = Some value ->
  ShellEnv.storable_name name = true
  /\ ShellEnv.dot_star_to_end value = true.
Proof.
  unfold ShellEnv.parse_env_output.
  assert (forall lines (m : gmap string string),
            (forall k v, m !! k = Some v ->
               ShellEnv.storable_name k = true
               /\ ShellEnv.dot_star_to_end v = true) ->
            forall k v, fold_left ShellEnv.read_line lines m !! k = Some v ->
               ShellEnv.storable_name k = true
               /\ ShellEnv.dot_star_to_end v = true) as Hfold.
  { induction lines as [|line lines IH]; intros m Hm; [exact Hm|].
    simpl. apply IH. intros k v. unfold ShellEnv.read_line.
    destruct (ShellEnv.match_line line) as [[n x]|] eqn:Hl; [|apply Hm].
    apply match_line_spec in Hl as (_ & Hn & Hf & Hx).
    unfold ShellEnv.set_property.
    destruct (String.eqb n "__proto__") eqn:Hp; [apply Hm|].
    rewrite lookup_insert. case_decide as Hk; [|apply Hm].
    intros E. injection E as <-. subst k.
    unfold ShellEnv.storable_name. now rewrite Hn, Hf, Hp. }
  apply Hfold. intros k v Hk. now rewrite lookup_empty in Hk.
Qed.

Lemma parse_env_output_names_witness :
  ShellEnv.storable_name "A" = true
  /\ ShellEnv.dot_star_to_end "1" = true.
Proof.
  apply (parse_env_output_names
           ("=x" +:+ String ShellEnv.LF ("A=1" +:+ String ShellEnv.CR ""
            +:+ String ShellEnv.LF ("A=1" +:+ String ShellEnv.LF "")))
           "A" "1").
  vm_compute. reflexivity.
Defined.

(** X4: a line without an equals sign adds nothing: the environment read
    from an output that ends in such a line is the one read without it.
    So of a value that spans several lines only the first line is
    kept. *)
Theorem parse_env_output_ignores_line (envOutput line : string) :
  ShellEnv.free_of ShellEnv.equals_sign line = true ->
  ShellEnv.free_of ShellEnv.LF line = true ->
  ShellEnv.parse_env_output (envOutput +:+ String ShellEnv.LF line)
  = ShellEnv.parse_env_output envOutput.
Proof.
  intros He Hl. rewrite parse_env_output_app, (split_free _ _ Hl). simpl.
  unfold ShellEnv.read_line. now rewrite (match_line_no_equals _ He).
Qed.

Lemma parse_env_output_ignores_line_witness :
  ShellEnv.parse_env_output ("F=() { echo" +:+ String ShellEnv.LF "}")
  = ShellEnv.parse_env_output "F=() { echo".
Proof.
  exact (parse_env_output_ignores_line "F=() { echo" "}" eq_refl eq_refl).
Defined.

(** X5: when the shell of the user is bash, under whatever directory, or
    [SHELL] is not set, and the command run in it prints a line for each
    variable, [loadUserShellEnvironment] returns those variables; when
    the command fails, it returns the environment of the process. *)
Theorem loadUserShellEnvironment_bash (home : string)
    (processEnv : gmap string string) (execSync : string -> Outcome string)
    (vars : list (string * string)) :
  Path.basename (ShellEnv.detected_shell processEnv) = "bash" ->
  forallb one_line_var vars = true ->
  (execSync ShellEnv.bash_command = Returns (ShellEnv.env_lines vars) ->
   ShellEnv.loadUserShellEnvironment (Returns home) processEnv execSync
   = Returns (list_to_map (rev vars)))
  /\ (forall message,
        execSync ShellEnv.bash_command = Throws message ->
        ShellEnv.loadUserShellEnvironment (Returns home) processEnv execSync
        = Returns processEnv).
Proof.
  intros Hb Hv. unfold ShellEnv.loadUserShellEnvironment, ShellEnv.env_command.
  rewrite Hb. simpl. split.
  - intros ->. f_equal. unfold ShellEnv.parse_env_output.
    rewrite (fold_read_env_lines _ Hv). unfold list_to_map.
    now rewrite <- fold_left_rev_right.
  - now intros message ->.
Qed.

Lemma loadUserShellEnvironment_bash_witness :
  ShellEnv.loadUserShellEnvironment (Returns "/home/u") ∅
    (fun _ => Returns (ShellEnv.env_lines [("HOME", "/home/u")]))
  = Returns (list_to_map [("HOME", "/home/u")]).
Proof.
  exact (proj1 (loadUserShellEnvironment_bash "/home/u" ∅
                  (fun _ => Returns (ShellEnv.env_lines [("HOME", "/home/u")]))
                  [("HOME", "/home/u")] eq_refl eq_refl) eq_refl).
Defined.

(** ** The allow-list as a list in insertion order *)

Lemma of_list_NoDup (l : list string) : NoDup (JsSet.of_list l).
Proof.
  unfold JsSet.of_list.
  assert (forall acc, NoDup acc -> NoDup (fold_left JsSet.add l acc)) as H.
  { induction l as [|x l IH]; intros acc Hacc; [exact Hacc|].
    simpl. apply IH. now apply add_NoDup. }
  apply H. constructor.
Qed.

Lemma delete_app (s t : list string) (x : string) :
  JsSet.delete (s ++ t) x = (JsSet.delete s x ++ JsSet.delete t x)%list.
Proof. unfold JsSet.delete. apply List.filter_app. Qed.

Lemma delete_singleton (x : string) : JsSet.delete [x] x = [].
Proof. unfold JsSet.delete. simpl. now rewrite String.eqb_refl. Qed.

Lemma delete_other (x y : string) : x <> y -> JsSet.delete [y] x = [y].
Proof.
  intros H. unfold JsSet.delete. simpl.
  destruct (String.eqb_spec x y); [contradiction | reflexivity].
Qed.

Lemma has_false_not_In (s : list string) (x : string) :
  JsSet.has s x = false <-> ~ In x s.
Proof.
  rewrite <- has_In. destruct (JsSet.has s x); split; intros H;
    try reflexivity; try discriminate; try (intros E; discriminate E).
  now elim H.
Qed.

(** X6: in every executor a program can hold, [getAllowedCommands] lists
    no command twice, and the maximum timeout is 60000. *)
Theorem reachable_invariant (ex : ShellExecutor) :
  reachable ex ->
  NoDup (getAllowedCommands ex) /\ maxTimeout ex = 60000.
Proof.
  induction 1 as [baseDir shellEnv | ex n _ [IHn IHt] | ex n _ [IHn IHt]];
    simpl.
  - split; [apply of_list_NoDup | reflexivity].
  - split; [now apply add_NoDup | exact IHt].
  - split; [now apply delete_NoDup | exact IHt].
Qed.

Lemma reachable_invariant_witness :
  NoDup (getAllowedCommands
           (allowCommand (disallowCommand (new_ShellExecutor "/srv/app" ∅)
                            "rm") "curl"))
  /\ maxTimeout
       (allowCommand (disallowCommand (new_ShellExecutor "/srv/app" ∅)
                        "rm") "curl") = 60000.
Proof.
  apply reachable_invariant.
  apply reachable_allow, reachable_disallow, reachable_new.
Defined.

(** X7: allowing a command that was not allowed and disallowing it again
    gives back the executor, with its list in the order it had. *)
Theorem disallowCommand_allowCommand (ex : ShellExecutor) (n : string) :
  ~ In n (allowedCommands ex) ->
  disallowCommand (allowCommand ex n) n = ex.
Proof.
  intros H. apply has_false_not_In in H.
  unfold disallowCommand, allowCommand, JsSet.add. simpl. rewrite H.
  apply executor_eta.
  rewrite delete_app, delete_singleton, app_nil_r.
  now apply delete_absent.
Qed.

Lemma disallowCommand_allowCommand_witness :
  disallowCommand (allowCommand (new_ShellExecutor "/srv/app" ∅) "curl")
    "curl"
  = new_ShellExecutor "/srv/app" ∅.
Proof.
  apply disallowCommand_allowCommand.
  apply has_false_not_In. vm_compute. reflexivity.
Defined.

(** X8: disallowing an allowed command and allowing it again moves it to
    the end of the list: the other commands keep their order. *)
Theorem allowCommand_disallowCommand (ex : ShellExecutor) (n : string) :
  NoDup (allowedCommands ex) ->
  In n (allowedCommands ex) ->
  exists before after,
    getAllowedCommands ex = (before ++ n :: after)%list
    /\ getAllowedCommands (allowCommand (disallowCommand ex n) n)
       = (before ++ after ++ [n])%list.
Proof.
  intros Hnd Hin. unfold getAllowedCommands.
  destruct (in_split _ _ Hin) as (before & after & Hs).
  exists before, after. split; [exact Hs|].
  simpl. rewrite Hs in Hnd |- *.
  apply NoDup_ListNoDup in Hnd.
  pose proof (List.NoDup_remove_2 _ _ _ Hnd) as Hnot.
  assert (~ In n before /\ ~ In n after) as [Hb Ha].
  { split; intros E; apply Hnot, in_or_app; [left | right]; exact E. }
  apply has_false_not_In in Hb, Ha.
  change (n :: after) with ([n] ++ after)%list.
  rewrite !delete_app, delete_singleton. simpl.
  rewrite (delete_absent _ _ Hb), (delete_absent _ _ Ha).
  unfold JsSet.add.
  assert (JsSet.has (before ++ after) n = false) as Hh.
  { unfold JsSet.has in *. now rewrite existsb_app, Hb, Ha. }
  rewrite Hh. now rewrite <- app_assoc.
Qed.

Lemma allowCommand_disallowCommand_witness :
  exists before after,
    getAllowedCommands (new_ShellExecutor "/srv/app" ∅)
    = (before ++ "git" :: after)%list
    /\ getAllowedCommands
         (allowCommand (disallowCommand (new_ShellExecutor "/srv/app" ∅)
                          "git") "git")
       = (before ++ after ++ ["git"])%list.
Proof.
  apply allowCommand_disallowCommand.
  - exact (of_list_NoDup default_commands).
  - refine (proj1 (has_In _ "git") _). vm_compute. reflexivity.
Defined.

(** X9: allowing one command and disallowing another can be done in
    either order. *)
Theorem allowCommand_disallowCommand_commute (ex : ShellExecutor)
    (a b : string) :
  a <> b ->
  disallowCommand (allowCommand ex a) b
  = allowCommand (disallowCommand ex b) a.
Proof.
  intros Hab. unfold disallowCommand, allowCommand. simpl. f_equal.
  unfold JsSet.add. rewrite has_delete.
  destruct (String.eqb_spec a b) as [E|_]; [contradiction|]. simpl.
  destruct (JsSet.has (allowedCommands ex) a); [reflexivity|].
  rewrite delete_app, delete_other; [reflexivity|].
  intros E. now apply Hab.
Qed.

Lemma allowCommand_disallowCommand_commute_witness :
  disallowCommand (allowCommand (new_ShellExecutor "/srv/app" ∅) "curl") "rm"
  = allowCommand (disallowCommand (new_ShellExecutor "/srv/app" ∅) "rm")
      "curl".
Proof.
  apply allowCommand_disallowCommand_commute. discriminate.
Defined.

(** ** [path.resolve] under a base directory *)

Lemma segments_split (s : string) :
  Path.segments s = ShellEnv.split Path.sep s.
Proof.
  induction s as [|c s IH]; [reflexivity|].
  simpl. unfold Path.is_sep. now rewrite IH.
Qed.

Lemma plain_name_inv (s : string) :
  plain_name s = true ->
  Js.truthy_string s = true
  /\ ShellEnv.free_of Path.sep s = true
  /\ String.eqb s "." = false /\ String.eqb s ".." = false.
Proof.
  unfold plain_name, is_file_name. intros H.
  apply andb_true_iff in H as [H H2]. apply andb_true_iff in H as [H H1].
  apply andb_true_iff in H as [Ht Hf].
  apply negb_true_iff in H1, H2. repeat split; assumption.
Qed.

Lemma plain_name_not_absolute (s : string) :
  plain_name s = true -> Path.isAbsolute s = false.
Proof.
  intros H. apply plain_name_inv in H as (Ht & Hf & _ & _).
  destruct s as [|c s]; [reflexivity|].
  rewrite free_of_cons in Hf. apply andb_true_iff in Hf as [Hc _].
  now apply negb_true_iff in Hc.
Qed.

Lemma join_cons (x y : string) (r : list string) :
  Js.join "/" (x :: y :: r) = x +:+ "/" +:+ Js.join "/" (y :: r).
Proof. reflexivity. Qed.

Lemma join_snoc (l : list string) (x : string) :
  l <> [] -> Js.join "/" (l ++ [x]) = Js.join "/" l +:+ "/" +:+ x.
Proof.
  induction l as [|a l IH]; intros H; [contradiction|].
  destruct l as [|b l]; [reflexivity|].
  change ((a :: b :: l) ++ [x])%list with (a :: ((b :: l) ++ [x]))%list.
  change ((b :: l) ++ [x])%list with (b :: (l ++ [x]))%list.
  rewrite join_cons. change (b :: (l ++ [x]))%list with ((b :: l) ++ [x])%list.
  rewrite IH by discriminate. rewrite join_cons.
  now rewrite !string_app_assoc.
Qed.

Lemma join_app (l r : list string) :
  l <> [] -> r <> [] ->
  Js.join "/" (l ++ r) = Js.join "/" l +:+ "/" +:+ Js.join "/" r.
Proof.
  intros Hl. revert l Hl. induction r as [|x r IH]; intros l Hl Hr;
    [contradiction|].
  destruct r as [|y r]; [now apply join_snoc|].
  change (x :: y :: r) with ([x] ++ (y :: r))%list.
  rewrite app_assoc, IH; [|now destruct l|discriminate].
  rewrite (join_snoc l x Hl). simpl app. rewrite join_cons.
  now rewrite !string_app_assoc.
Qed.

Lemma split_join (ds : list string) :
  ds <> [] ->
  forallb (ShellEnv.free_of Path.sep) ds = true ->
  ShellEnv.split Path.sep (Js.join "/" ds) = ds.
Proof.
  induction ds as [|x ds IH]; intros Hne H; [contradiction|].
  simpl in H. apply andb_true_iff in H as [Hx Hds].
  destruct ds as [|y ds]; [now apply split_free|].
  rewrite join_cons.
  change (x +:+ "/" +:+ Js.join "/" (y :: ds))
    with (x +:+ String Path.sep (Js.join "/" (y :: ds))).
  rewrite split_app, (split_free _ _ Hx), IH; [reflexivity|discriminate|exact Hds].
Qed.

Lemma forallb_plain_free (l : list string) :
  forallb plain_name l = true ->
  forallb (ShellEnv.free_of Path.sep) l = true.
Proof.
  induction l as [|x l IH]; intros H; [reflexivity|].
  simpl in *. apply andb_true_iff in H as [Hx Hl].
  apply plain_name_inv in Hx as (_ & Hf & _ & _). now rewrite Hf, IH.
Qed.

Lemma normalize_step_plain (a : bool) (acc : list string) (seg : string) :
  plain_name seg = true -> Path.normalize_step a acc seg = seg :: acc.
Proof.
  intros H. apply plain_name_inv in H as (Ht & _ & H1 & H2).
  unfold Path.normalize_step. rewrite H1, H2.
  destruct seg; [discriminate Ht | reflexivity].
Qed.

Lemma normalize_fold_plain (a : bool) (l : list string) :
  forallb plain_name l = true ->
  forall acc,
    fold_left (Path.normalize_step a) l acc = (rev l ++ acc)%list.
Proof.
  induction l as [|x l IH]; intros H acc; [reflexivity|].
  simpl in H. apply andb_true_iff in H as [Hx Hl].
  simpl. rewrite (normalize_step_plain _ _ _ Hx), (IH Hl).
  now rewrite <- app_assoc.
Qed.

Lemma normalize_fold_join (a : bool) (bs : list string) (acc : list string) :
  forallb plain_name bs = true ->
  fold_left (Path.normalize_step a) (Path.segments (Js.join "/" bs)) acc
  = (rev bs ++ acc)%list.
Proof.
  intros H. destruct bs as [|b bs]; [reflexivity|].
  rewrite segments_split, split_join;
    [now apply normalize_fold_plain | discriminate
    | now apply forallb_plain_free].
Qed.

(** The resolution of a relative path against a base directory made of
    plain names: the segments of the path are normalised on top of those
    of the base. *)
Lemma resolve_under_base (pc : string) (bs : list string) (d : string) :
  forallb plain_name bs = true ->
  Js.truthy_string d = true ->
  Path.isAbsolute d = false ->
  Path.resolve pc [abs_path bs; d]
  = abs_path (rev (fold_left (Path.normalize_step false)
                     (Path.segments d) (rev bs))).
Proof.
  intros Hbs Hd Ha. unfold Path.resolve. simpl rev. simpl app.
  unfold Path.resolve_loop. rewrite Hd, Ha.
  change (Js.truthy_string (abs_path bs)) with true.
  change (Path.isAbsolute (abs_path bs)) with true.
  cbv iota beta. unfold Path.normalizeString, Path.normalize_segments.
  unfold abs_path at 1.
  change (("/" +:+ Js.join "/" bs) +:+ "/" +:+ d +:+ "/" +:+ "")
    with (String Path.sep (Js.join "/" bs +:+ String Path.sep
            (d +:+ String Path.sep ""))).
  rewrite !segments_split.
  change (ShellEnv.split Path.sep (String Path.sep ?x))
    with (EmptyString :: ShellEnv.split Path.sep x).
  rewrite !split_app. rewrite <- !segments_split.
  simpl fold_left at 1.
  rewrite !fold_left_app, (normalize_fold_join _ _ _ Hbs), app_nil_r.
  reflexivity.
Qed.

Example resolve_under_base_example :
  Path.resolve "/" [abs_path ["srv"; "app"]; "a/../b"] = "/srv/app/b".
Proof. reflexivity. Qed.

(** ** [validateWorkingDirectory] on paths made of plain names *)

Lemma prefix_app_same (p a b : string) :
  String.prefix (p +:+ a) (p +:+ b) = String.prefix a b.
Proof.
  induction p as [|c p IH]; [reflexivity|].
  now rewrite !string_app_cons, prefix_cons.
Qed.

Lemma prefix_app_longer (a suffix : string) :
  Js.truthy_string suffix = true ->
  String.prefix (a +:+ suffix) a = false.
Proof.
  intros H. induction a as [|c a IH].
  - destruct suffix; [discriminate H | reflexivity].
  - now rewrite string_app_cons, prefix_cons.
Qed.

Lemma abs_path_snoc (segs : list string) (x : string) :
  abs_path (segs ++ [x]) = before_last segs +:+ x.
Proof.
  unfold abs_path, before_last. destruct segs as [|s segs]; [reflexivity|].
  rewrite join_snoc by discriminate. now rewrite !string_app_assoc.
Qed.

Lemma abs_path_app (bs ds : list string) :
  ds <> [] ->
  exists suffix, abs_path (bs ++ ds) = abs_path bs +:+ suffix.
Proof.
  intros Hds. unfold abs_path. destruct bs as [|b bs].
  - exists (Js.join "/" ds). reflexivity.
  - exists ("/" +:+ Js.join "/" ds).
    rewrite join_app by (discriminate || exact Hds).
    now rewrite !string_app_assoc.
Qed.

Lemma join_plain_relative (ds : list string) :
  ds <> [] -> forallb plain_name ds = true ->
  Js.truthy_string (Js.join "/" ds) = true
  /\ Path.isAbsolute (Js.join "/" ds) = false.
Proof.
  destruct ds as [|x ds]; intros Hne H; [contradiction|].
  simpl in H. apply andb_true_iff in H as [Hx _].
  pose proof (plain_name_not_absolute _ Hx) as Ha.
  apply plain_name_inv in Hx as (Ht & _).
  destruct x as [|c x]; [discriminate Ht|].
  destruct ds; split; try reflexivity; exact Ha.
Qed.

Lemma forallb_snoc {A : Type} (f : A -> bool) (l : list A) (x : A) :
  forallb f (l ++ [x]) = forallb f l && f x.
Proof. rewrite forallb_app. simpl. now rewrite andb_true_r. Qed.

(** X10: a command is only ever started in the base directory itself,
    or in a directory that exists and whose resolved path begins with
    the characters of the base directory. *)
Theorem executeCommand_cwd_invariant (ex : ShellExecutor) (w : World)
    (command : string) (args : list string) (cwd : option string)
    (env : option (gmap string string)) (timeout : option Z)
    (call : SpawnCall) :
  In call (spawned (executeCommand ex w command args cwd env timeout)) ->
  opt_cwd (call_options call) = baseDirectory ex
  \/ (Js.startsWith (opt_cwd (call_options call)) (baseDirectory ex) = true
      /\ existsSync w (opt_cwd (call_options call)) = true).
Proof.
  intros Hin.
  destruct (executeCommand_spawned_inv _ _ _ _ _ _ _ _ Hin)
    as (wd & _ & _ & Hv & -> & _).
  simpl. unfold validateWorkingDirectory in Hv.
  destruct cwd as [d|]; [|injection Hv as <-; now left].
  destruct (Js.truthy_string d); simpl in Hv;
    [|injection Hv as <-; now left].
  destruct (Js.startsWith _ (baseDirectory ex)) eqn:Hs; simpl in Hv;
    [|discriminate Hv].
  destruct (existsSync w _) eqn:He; simpl in Hv; [|discriminate Hv].
  injection Hv as <-. right. now split.
Qed.

Lemma executeCommand_cwd_invariant_witness :
  "/srv/app-other" = "/srv/app"
  \/ (Js.startsWith "/srv/app-other" "/srv/app" = true
      /\ existsSync sibling_world "/srv/app-other" = true).
Proof.
  apply (executeCommand_cwd_invariant (new_ShellExecutor "/srv/app" ∅)
           sibling_world "ls" [] (Some "../app-other") None None
           (mkCall "ls" [] (mkOptions "/srv/app-other" ∅ 60000))).
  vm_compute. left. reflexivity.
Defined.

Lemma resolve_loop_absolute (pc : string) (ps : list string) :
  Path.isAbsolute pc = true ->
  forall acc, snd (Path.resolve_loop (ps ++ [pc]) acc) = true.
Proof.
  intros Hpc. induction ps as [|p ps IH]; intros acc; simpl.
  - destruct pc; [discriminate Hpc|]. simpl in *. now rewrite Hpc.
  - destruct (Js.truthy_string p); [|apply IH].
    destruct (Path.isAbsolute p); [reflexivity | apply IH].
Qed.

(** X11: when the base directory is a relative path, every non-empty
    working-directory override is refused as outside the base: the
    resolved path is absolute and cannot begin with the base. *)
Theorem validateWorkingDirectory_relative_base (ex : ShellExecutor)
    (w : World) (d : string) :
  Path.isAbsolute (processCwd w) = true ->
  Js.truthy_string (baseDirectory ex) = true ->
  Path.isAbsolute (baseDirectory ex) = false ->
  Js.truthy_string d = true ->
  validateWorkingDirectory ex w (Some d) = Throws (outside_message d).
Proof.
  intros Hpc Hb Hrel Hd. apply validateWorkingDirectory_outside; [exact Hd|].
  unfold Path.resolve.
  pose proof (resolve_loop_absolute (processCwd w)
                (rev [baseDirectory ex; d]) Hpc "") as Habs.
  destruct (Path.resolve_loop _ _) as [rp ra]. simpl in Habs. subst ra.
  unfold Js.startsWith. destruct (baseDirectory ex) as [|c b];
    [discriminate Hb|].
  simpl in Hrel. unfold Path.is_sep in Hrel.
  change ("/" +:+ Path.normalizeString rp (negb true))
    with (String Path.sep (Path.normalizeString rp (negb true))).
  simpl. destruct (ascii_dec c Path.sep) as [->|_]; [|reflexivity].
  now rewrite Ascii.eqb_refl in Hrel.
Qed.

Lemma validateWorkingDirectory_relative_base_witness :
  validateWorkingDirectory (new_ShellExecutor "work" ∅) sibling_world
    (Some "sub")
  = Throws (outside_message "sub").
Proof.
  exact (validateWorkingDirectory_relative_base
           (new_ShellExecutor "work" ∅) sibling_world "sub"
           eq_refl eq_refl eq_refl eq_refl).
Defined.

(** X12: under a base directory made of plain names, a relative
    override made of plain names resolves to the base followed by those
    names; the validation returns that path when it exists and otherwise
    fails with the message that names it.  It is never refused as outside
    the base. *)
Theorem validateWorkingDirectory_descendant (ex : ShellExecutor)
    (w : World) (bs ds : list string) :
  baseDirectory ex = abs_path bs ->
  forallb plain_name bs = true ->
  ds <> [] ->
  forallb plain_name ds = true ->
  validateWorkingDirectory ex w (Some (Js.join "/" ds))
  = if existsSync w (abs_path (bs ++ ds))
    then Returns (abs_path (bs ++ ds))
    else Throws (missing_message (abs_path (bs ++ ds))).
Proof.
  intros Hb Hbs Hne Hds.
  destruct (join_plain_relative ds Hne Hds) as [Ht Ha].
  unfold validateWorkingDirectory. rewrite Ht, Hb. simpl negb. cbv iota.
  rewrite (resolve_under_base _ _ _ Hbs Ht Ha).
  rewrite (normalize_fold_join _ _ _ Hds), rev_app_distr, !rev_involutive.
  destruct (abs_path_app bs ds Hne) as [suffix Hs].
  unfold Js.startsWith. rewrite Hs at 1. rewrite prefix_app. simpl.
  now destruct (existsSync w (abs_path (bs ++ ds))).
Qed.

Lemma validateWorkingDirectory_descendant_witness :
  validateWorkingDirectory (new_ShellExecutor "/srv/app" ∅)
    (mkWorld "/" (fun p => String.eqb p "/srv/app/src")
       (fun _ => ChildRuns []))
    (Some "src/lib")
  = Throws (missing_message "/srv/app/src/lib").
Proof.
  exact (validateWorkingDirectory_descendant (new_ShellExecutor "/srv/app" ∅)
           (mkWorld "/" (fun p => String.eqb p "/srv/app/src")
              (fun _ => ChildRuns []))
           ["srv"; "app"] ["src"; "lib"] eq_refl eq_refl
           ltac:(discriminate) eq_refl).
Defined.

(** X13: under a base directory made of plain names, the override [..]
    is refused as outside the base. *)
Theorem validateWorkingDirectory_parent (ex : ShellExecutor) (w : World)
    (bs : list string) :
  baseDirectory ex = abs_path bs ->
  forallb plain_name bs = true ->
  bs <> [] ->
  validateWorkingDirectory ex w (Some "..") = Throws (outside_message "..").
Proof.
  intros Hb Hbs Hne.
  destruct (exists_last Hne) as (bs' & l & ->).
  rewrite forallb_snoc in Hbs. apply andb_true_iff in Hbs as [Hbs' Hl].
  apply validateWorkingDirectory_outside; [reflexivity|].
  rewrite Hb, resolve_under_base;
    [|rewrite forallb_snoc; now rewrite Hbs', Hl|reflexivity|reflexivity].
  rewrite rev_app_distr. simpl rev. simpl app. simpl Path.segments.
  simpl fold_left.
  apply plain_name_inv in Hl as (Ht & _ & _ & Hdd).
  replace (Path.normalize_step false (l :: rev bs') "..") with (rev bs')
    by (unfold Path.normalize_step; simpl; now rewrite Hdd).
  rewrite rev_involutive.
  unfold Js.startsWith. rewrite abs_path_snoc.
  destruct bs' as [|b bs'].
  - simpl before_last. change (abs_path []) with ("/" +:+ "").
    rewrite prefix_app_same. now destruct l.
  - simpl before_last. rewrite string_app_assoc.
    apply prefix_app_longer. reflexivity.
Qed.

Lemma validateWorkingDirectory_parent_witness :
  validateWorkingDirectory (new_ShellExecutor "/srv/app" ∅) sibling_world
    (Some "..")
  = Throws (outside_message "..").
Proof.
  exact (validateWorkingDirectory_parent (new_ShellExecutor "/srv/app" ∅)
           sibling_world ["srv"; "app"] eq_refl eq_refl ltac:(discriminate)).
Defined.

(** X14: under a base directory whose last segment is [l], the sibling
    [../name] passes the containment check exactly when [name] begins
    with the characters of [l]; it is then returned when it exists. *)
Theorem validateWorkingDirectory_sibling (ex : ShellExecutor) (w : World)
    (bs : list string) (l name : string) :
  baseDirectory ex = abs_path (bs ++ [l]) ->
  forallb plain_name bs = true ->
  plain_name l = true ->
  plain_name name = true ->
  validateWorkingDirectory ex w (Some ("../" +:+ name))
  = if String.prefix l name
    then if existsSync w (abs_path (bs ++ [name]))
         then Returns (abs_path (bs ++ [name]))
         else Throws (missing_message (abs_path (bs ++ [name])))
    else Throws (outside_message ("../" +:+ name)).
Proof.
  intros Hb Hbs Hl Hn.
  assert (Path.resolve (processCwd w) [baseDirectory ex; "../" +:+ name]
          = abs_path (bs ++ [name])) as Hr.
  { rewrite Hb, resolve_under_base;
      [|rewrite forallb_snoc; now rewrite Hbs, Hl|reflexivity|reflexivity].
    rewrite segments_split.
    change ("../" +:+ name) with (".." +:+ String Path.sep name).
    rewrite split_app, (split_free Path.sep "..") by reflexivity.
    pose proof Hn as Hn'.
    apply plain_name_inv in Hn' as (_ & Hfree & _ & _).
    rewrite (split_free _ _ Hfree), rev_app_distr.
    simpl rev. simpl app. simpl fold_left.
    pose proof Hl as Hl'. apply plain_name_inv in Hl' as (_ & _ & _ & Hdd).
    replace (Path.normalize_step false (l :: rev bs) "..") with (rev bs)
      by (unfold Path.normalize_step; simpl; now rewrite Hdd).
    rewrite (normalize_step_plain _ _ _ Hn). simpl rev.
    now rewrite rev_involutive. }
  unfold validateWorkingDirectory.
  change (Js.truthy_string ("../" +:+ name)) with true.
  simpl negb at 1. cbv iota. rewrite Hr.
  unfold Js.startsWith. rewrite Hb, !abs_path_snoc, prefix_app_same.
  destruct (String.prefix l name); simpl negb; cbv iota; [|reflexivity].
  now destruct (existsSync w _).
Qed.

Lemma validateWorkingDirectory_sibling_witness :
  validateWorkingDirectory (new_ShellExecutor "/srv/app" ∅) sibling_world
    (Some "../apps")
  = Throws (missing_message "/srv/apps").
Proof.
  exact (validateWorkingDirectory_sibling (new_ShellExecutor "/srv/app" ∅)
           sibling_world ["srv"] "app" "apps" eq_refl eq_refl eq_refl
           eq_refl).
Defined.

(** ** What reaches [spawn], and what comes back *)

Lemma truthy_app_sep (dir rest : string) :
  Js.truthy_string (dir +:+ "/" +:+ rest) = true.
Proof. now destruct dir. Qed.

(** X15: the allow-list looks at the basename only, and [spawn] gets the
    command as it was given: for an allowed file name, under whatever
    directory it is written, the one call of [spawn] carries the whole
    command string and the arguments unchanged. *)
Theorem executeCommand_command_as_given (ex : ShellExecutor) (w : World)
    (dir n : string) (args : list string) (cwd : option string)
    (env : option (gmap string string)) (timeout : option Z)
    (workingDir : string) :
  is_file_name n = true ->
  In n (allowedCommands ex) ->
  validateWorkingDirectory ex w cwd = Returns workingDir ->
  spawned (executeCommand ex w (dir +:+ "/" +:+ n) args cwd env timeout)
  = [mkCall (dir +:+ "/" +:+ n) args
       (mkOptions workingDir (mergedEnv ex env)
          (effectiveTimeout ex timeout))].
Proof.
  intros Hn Hin Hv. apply executeCommand_spawns.
  - apply truthy_app_sep.
  - unfold isCommandAllowed.
    rewrite (proj1 (basename_strips_directory dir n Hn)).
    now apply has_In.
  - exact Hv.
Qed.

Lemma executeCommand_command_as_given_witness :
  map call_command
    (spawned (executeCommand (new_ShellExecutor "/srv/app" ∅) sibling_world
                ("/tmp/x" +:+ "/" +:+ "git") ["status"] None None None))
  = ["/tmp/x/git"].
Proof.
  rewrite (executeCommand_command_as_given (new_ShellExecutor "/srv/app" ∅)
             sibling_world "/tmp/x" "git" ["status"] None None None
             "/srv/app" eq_refl).
  - reflexivity.
  - refine (proj1 (has_In _ "git") _). vm_compute. reflexivity.
  - reflexivity.
Defined.

Lemma coherent_settled (timeout : Z) (evs : list ChildEvent) :
  forall s : SpawnState,
    (forall r, st_settled s = Some r -> coherent r) ->
    forall r, st_settled (run_events timeout s evs) = Some r -> coherent r.
Proof.
  unfold run_events.
  induction evs as [|e evs IH]; intros s Hs; [exact Hs|].
  simpl. apply IH. intros r.
  destruct e; simpl; try apply Hs.
  - destruct (st_settled s) as [r0|] eqn:E; simpl.
    + intros H. injection H as <-. now apply Hs.
    + intros H. injection H as <-. unfold coherent. simpl.
      destruct code as [c|]; (split; [reflexivity|]); intros Hc;
        solve [reflexivity | discriminate Hc].
  - destruct (st_settled s) as [r0|] eqn:E; simpl.
    + intros H. injection H as <-. now apply Hs.
    + intros H. injection H as <-. unfold coherent. simpl.
      split; [reflexivity | discriminate].
  - destruct (st_timer_pending s); simpl; [|apply Hs].
    destruct (st_settled s) as [r0|] eqn:E; simpl.
    + intros H. injection H as <-. now apply Hs.
    + intros H. injection H as <-. unfold coherent. simpl.
      split; [reflexivity | discriminate].
Qed.

Lemma coherent_error_response (message : string) :
  coherent (createErrorResponse message).
Proof. unfold coherent. simpl. split; [reflexivity | discriminate]. Qed.

Lemma executeCommand_coherent (ex : ShellExecutor) (w : World)
    (command : string) (args : list string) (cwd : option string)
    (env : option (gmap string string)) (timeout : option Z)
    (r : ExecutionResult) :
  completion (executeCommand ex w command args cwd env timeout) = Resolved r ->
  coherent r.
Proof.
  unfold executeCommand, executeCommand_try.
  destruct (Js.truthy_string command); simpl;
    [|intros H; injection H as <-; apply coherent_error_response].
  destruct (isCommandAllowed ex command); simpl;
    [|intros H; injection H as <-; apply coherent_error_response].
  destruct (validateWorkingDirectory ex w cwd) as [wd|m]; simpl;
    [|intros H; injection H as <-; apply coherent_error_response].
  unfold spawnCommand.
  destruct (os_spawn w _) as [m|evs]; simpl;
    [intros H; injection H as <-; apply coherent_error_response|].
  destruct (st_settled (run_events _ _ evs)) as [r0|] eqn:E; simpl;
    [|discriminate].
  intros H. injection H as <-.
  refine (coherent_settled _ _ _ _ _ E).
  intros r H. discriminate H.
Qed.

(** X17: in every result of [executeCommand], whichever path produced
    it, [success] is true exactly when the exit code is 0, and a
    successful result has no [error]. *)
Theorem executeCommand_result_coherent (ex : ShellExecutor) (w : World)
    (command : string) (args : list string) (cwd : option string)
    (env : option (gmap string string)) (timeout : option Z)
    (r : ExecutionResult) :
  completion (executeCommand ex w command args cwd env timeout) = Resolved r ->
  success r = (exitCode r =? 0) /\ (success r = true -> error r = None).
Proof. apply executeCommand_coherent. Qed.

Lemma executeCommand_result_coherent_witness :
  success (createErrorResponse (not_allowed_message
             (new_ShellExecutor "/srv/app" ∅) "curl"))
  = (exitCode (createErrorResponse (not_allowed_message
                 (new_ShellExecutor "/srv/app" ∅) "curl")) =? 0).
Proof.
  refine (proj1 (executeCommand_result_coherent
                   (new_ShellExecutor "/srv/app" ∅) sibling_world "curl" []
                   None None None _ _)).
  vm_compute. reflexivity.
Defined.

Lemma reachable_maxTimeout (ex : ShellExecutor) :
  reachable ex -> maxTimeout ex = 60000.
Proof. induction 1; simpl; [reflexivity | assumption | assumption]. Qed.

(** X16: a request cannot switch the timer off.  For every executor a
    program can hold and every requested timeout, also 0 or none, when
    the timer event arrives before the child closes or fails, the
    promise of [executeCommand] is resolved with the timeout result,
    which names the timeout that was handed to [spawn]. *)
Theorem executeCommand_timer_always_set (ex : ShellExecutor) (w : World)
    (command : string) (args : list string) (cwd : option string)
    (env : option (gmap string string)) (timeout : option Z)
    (call : SpawnCall) (pre rest : list ChildEvent) :
  reachable ex ->
  In call (spawned (executeCommand ex w command args cwd env timeout)) ->
  os_spawn w call = ChildRuns (pre ++ TimerFires :: rest) ->
  forallb is_data pre = true ->
  completion (executeCommand ex w command args cwd env timeout)
  = Resolved {| stdout := captured_stdout pre;
                stderr := timeout_stderr (effectiveTimeout ex timeout);
                exitCode := 1;
                success := false;
                error := Some timeout_error |}.
Proof.
  intros Hre Hin Hos Hpre.
  destruct (executeCommand_spawned_inv _ _ _ _ _ _ _ _ Hin)
    as (wd & _ & _ & _ & Hcall & ->).
  rewrite Hcall in Hos |- *. simpl call_options.
  rewrite (spawnCommand_first_terminal _ _ _ _ _ _ _
             {| stdout := captured_stdout pre;
                stderr := timeout_stderr (effectiveTimeout ex timeout);
                exitCode := 1;
                success := false;
                error := Some timeout_error |} Hos Hpre);
    [reflexivity|].
  simpl. rewrite effectiveTimeout_truthy; [reflexivity|].
  rewrite (reachable_maxTimeout _ Hre). discriminate.
Qed.

(** A child that never ends by itself. *)
Lemma executeCommand_timer_always_set_witness :
  completion
    (executeCommand (new_ShellExecutor "/srv/app" ∅) slow_world "node"
       ["server.js"] None None (Some 0))
  = Resolved {| stdout := "out";
                stderr := timeout_stderr 60000;
                exitCode := 1;
                success := false;
                error := Some timeout_error |}.
Proof.
  refine (executeCommand_timer_always_set (new_ShellExecutor "/srv/app" ∅)
            slow_world "node" ["server.js"] None None (Some 0)
            (mkCall "node" ["server.js"] (mkOptions "/srv/app" ∅ 60000))
            [StdoutData "out"; StderrData "warn"] [Close None]
            (reachable_new "/srv/app" ∅) _ eq_refl eq_refl).
  vm_compute. left. reflexivity.
Defined.

(** X18: once the promise of [spawnCommand] is resolved, nothing the
    child does later changes the result: a run that goes on after the
    events of a resolved run resolves to the same result. *)
Theorem spawnCommand_late_events (w w' : World) (command : string)
    (args : list string) (options : SpawnOptions)
    (evs rest : list ChildEvent) (r : ExecutionResult) :
  os_spawn w (mkCall command args options) = ChildRuns evs ->
  os_spawn w' (mkCall command args options) = ChildRuns (evs ++ rest) ->
  spawnCommand w command args options = Resolved r ->
  spawnCommand w' command args options = Resolved r.
Proof.
  unfold spawnCommand. intros -> ->. rewrite run_events_app.
  destruct (st_settled (run_events _ _ evs)) as [r0|] eqn:E;
    [|discriminate].
  intros H. injection H as <-. now rewrite (settled_stays _ _ _ _ E).
Qed.

Lemma spawnCommand_late_events_witness :
  spawnCommand
    (mkWorld "/" (fun _ => true)
       (fun _ => ChildRuns ([StdoutData "x"; Close (Some 0)]
                            ++ [StderrData "late"; ErrorEvent "EPIPE";
                                TimerFires])))
    "ls" [] (mkOptions "/srv/app" ∅ 60000)
  = Resolved {| stdout := "x"; stderr := ""; exitCode := 0;
                success := true; error := None |}.
Proof.
  exact (spawnCommand_late_events sibling_world
           (mkWorld "/" (fun _ => true)
              (fun _ => ChildRuns ([StdoutData "x"; Close (Some 0)]
                                   ++ [StderrData "late"; ErrorEvent "EPIPE";
                                       TimerFires])))
           "ls" []
           (mkOptions "/srv/app" ∅ 60000) [StdoutData "x"; Close (Some 0)]
           [StderrData "late"; ErrorEvent "EPIPE"; TimerFires]
           {| stdout := "x"; stderr := ""; exitCode := 0;
              success := true; error := None |}
           eq_refl eq_refl eq_refl).
Defined.

Lemma existsb_terminal (evs : list ChildEvent) :
  existsb is_terminal evs = negb (forallb is_data evs).
Proof.
  induction evs as [|e evs IH]; [reflexivity|].
  simpl. rewrite IH. unfold is_terminal. now destruct (is_data e).
Qed.

(** X19: with a timer set, the promise of [spawnCommand] is pending
    exactly as long as the child has only written output: any close,
    error or timer event resolves it. *)
Theorem spawnCommand_pending_iff (w : World) (command : string)
    (args : list string) (options : SpawnOptions)
    (evs : list ChildEvent) :
  os_spawn w (mkCall command args options) = ChildRuns evs ->
  Js.truthy_number (opt_timeout options) = true ->
  (spawnCommand w command args options = Pending
   <-> forallb is_data evs = true).
Proof.
  intros Hos Ht. unfold spawnCommand. rewrite Hos. split.
  - destruct (forallb is_data evs) eqn:Hd; [reflexivity|].
    destruct (run_events_settles (opt_timeout options) evs
                (initial_state (opt_timeout options))) as [r Hr].
    + intros _. exact Ht.
    + now rewrite existsb_terminal, Hd.
    + rewrite Hr. discriminate.
  - intros Hd. now rewrite (run_events_data _ _ _ Hd).
Qed.

Lemma spawnCommand_pending_iff_witness :
  spawnCommand
    (mkWorld "/" (fun _ => true)
       (fun _ => ChildRuns [StdoutData "a"; StderrData "b"]))
    "make" [] (mkOptions "/srv/app" ∅ 60000)
  = Pending.
Proof.
  exact (proj2 (spawnCommand_pending_iff
                  (mkWorld "/" (fun _ => true)
                     (fun _ => ChildRuns [StdoutData "a"; StderrData "b"]))
                  "make" [] (mkOptions "/srv/app" ∅ 60000)
                  [StdoutData "a"; StderrData "b"] eq_refl eq_refl)
           eq_refl).
Defined.

(** X20: when the child fails with an ['error'] event after it has
    written output, the result keeps the standard output captured so
    far, and its [stderr] is the message of the error, not what was
    captured. *)
Theorem spawnCommand_error_after_output (w : World) (command : string)
    (args : list string) (options : SpawnOptions)
    (pre : list ChildEvent) (message : string) (rest : list ChildEvent) :
  os_spawn w (mkCall command args options)
  = ChildRuns (pre ++ ErrorEvent message :: rest) ->
  forallb is_data pre = true ->
  spawnCommand w command args options
  = Resolved {| stdout := captured_stdout pre;
                stderr := message;
                exitCode := 1;
                success := false;
                error := Some message |}.
Proof.
  intros Hos Hpre.
  now apply (spawnCommand_first_terminal _ _ _ _ _ _ _ _ Hos Hpre).
Qed.

Lemma spawnCommand_error_after_output_witness :
  spawnCommand
    (mkWorld "/" (fun _ => true)
       (fun _ => ChildRuns [StdoutData "half"; StderrData "warn";
                            ErrorEvent "write EPIPE"; Close None]))
    "cat" [] (mkOptions "/srv/app" ∅ 60000)
  = Resolved {| stdout := "half"; stderr := "write EPIPE"; exitCode := 1;
                success := false; error := Some "write EPIPE" |}.
Proof.
  exact (spawnCommand_error_after_output
           (mkWorld "/" (fun _ => true)
              (fun _ => ChildRuns [StdoutData "half"; StderrData "warn";
                                   ErrorEvent "write EPIPE"; Close None]))
           "cat" [] (mkOptions "/srv/app" ∅ 60000)
           [StdoutData "half"; StderrData "warn"] "write EPIPE" [Close None]
           eq_refl eq_refl).
Defined.

(** ** The handlers of the two tools *)

Lemma executeCommand_settled (ex : ShellExecutor) (w : World)
    (command : string) (args : list string) (cwd : option string)
    (env : option (gmap string string)) (timeout : option Z) :
  (exists r,
     completion (executeCommand ex w command args cwd env timeout)
     = Resolved r)
  \/ completion (executeCommand ex w command args cwd env timeout) = Pending.
Proof.
  unfold executeCommand. simpl.
  destruct (completion (executeCommand_try _ _ _ _ _ _ _)); simpl; eauto.
Qed.

Lemma error_text_truthy (r : ExecutionResult) :
  Js.truthy_string (error_text r) = true.
Proof.
  unfold error_text. destruct (Js.truthy_string (stderr r)) eqn:E;
    [exact E|].
  destruct (error r) as [e|]; [|reflexivity].
  now destruct (Js.truthy_string e) eqn:E'.
Qed.

(** X21: whenever the handler of [shell_execute] answers, its answer is
    made from a result of [executeCommand]: [isError] is set exactly when
    the exit code is not 0; an answer without [isError] is the standard
    output alone; an answer with it is [Error: ] followed by a message
    that is never empty. *)
Theorem shell_execute_response (ex : ShellExecutor) (w : World)
    (command : string) (args : list string) (cwd : option string)
    (env : option (gmap string string)) (timeout : option Z)
    (resp : ToolResponse) :
  shell_execute ex w command args cwd env timeout = Resolved resp ->
  exists r,
    completion (executeCommand ex w command args cwd env timeout)
    = Resolved r
    /\ isError resp = negb (exitCode r =? 0)
    /\ (isError resp = false -> response_text resp = stdout r)
    /\ (isError resp = true ->
        exists m, response_text resp = "Error: " +:+ m
                  /\ Js.truthy_string m = true).
Proof.
  unfold shell_execute.
  destruct (executeCommand_settled ex w command args cwd env timeout)
    as [[r Hr]|Hp]; [|rewrite Hp; discriminate].
  rewrite Hr. intros H. injection H as <-. exists r.
  split; [reflexivity|].
  destruct (executeCommand_coherent _ _ _ _ _ _ _ _ Hr) as [Hs _].
  unfold render_result. rewrite Hs.
  destruct (exitCode r =? 0); simpl.
  - split; [reflexivity|]. split; [intros _; reflexivity | discriminate].
  - split; [reflexivity|]. split; [discriminate|]. intros _.
    exists (error_text r). split; [reflexivity | apply error_text_truthy].
Qed.

Lemma shell_execute_response_witness :
  exists r,
    completion (executeCommand (new_ShellExecutor "/srv/app" ∅)
                  signalled_world "make" [] None None None)
    = Resolved r
    /\ true = negb (exitCode r =? 0).
Proof.
  destruct (shell_execute_response (new_ShellExecutor "/srv/app" ∅)
              signalled_world "make" [] None None None
              (mkResponse "Error: b" true))
    as (r & Hr & He & _).
  - vm_compute. reflexivity.
  - exists r. split; [exact Hr | exact He].
Defined.

(** X22: when the child closes with exit code 0, the answer of the tool
    is what it wrote to its standard output; what it wrote to its
    standard error is not in the answer. *)
Theorem shell_execute_success (ex : ShellExecutor) (w : World)
    (command : string) (args : list string) (cwd : option string)
    (env : option (gmap string string)) (timeout : option Z)
    (call : SpawnCall) (pre rest : list ChildEvent) :
  In call (spawned (executeCommand ex w command args cwd env timeout)) ->
  os_spawn w call = ChildRuns (pre ++ Close (Some 0) :: rest) ->
  forallb is_data pre = true ->
  shell_execute ex w command args cwd env timeout
  = Resolved (mkResponse (captured_stdout pre) false).
Proof.
  intros Hin Hos Hpre. unfold shell_execute.
  destruct (executeCommand_spawned_inv _ _ _ _ _ _ _ _ Hin)
    as (wd & _ & _ & _ & Hcall & ->).
  rewrite Hcall in Hos |- *. simpl call_options.
  now rewrite (spawnCommand_first_terminal _ _ _ _ _ _ _
                 {| stdout := captured_stdout pre;
                    stderr := captured_stderr pre;
                    exitCode := 0; success := true; error := None |}
                 Hos Hpre).
Qed.

Lemma shell_execute_success_witness :
  shell_execute (new_ShellExecutor "/srv/app" ∅)
    (mkWorld "/" (fun _ => true)
       (fun _ => ChildRuns [StdoutData "ok"; StderrData "warning";
                            Close (Some 0)]))
    "npm" ["install"] None None None
  = Resolved (mkResponse "ok" false).
Proof.
  refine (shell_execute_success (new_ShellExecutor "/srv/app" ∅)
            (mkWorld "/" (fun _ => true)
               (fun _ => ChildRuns [StdoutData "ok"; StderrData "warning";
                                    Close (Some 0)]))
            "npm" ["install"] None None None
            (mkCall "npm" ["install"] (mkOptions "/srv/app" ∅ 60000))
            [StdoutData "ok"; StderrData "warning"] [] _ eq_refl eq_refl).
  vm_compute. left. reflexivity.
Defined.

(** X23: when the child closes with another exit code, or is ended by a
    signal, the answer of the tool is an error made of what it wrote to
    its standard error, or of the words [Unknown error] when it wrote
    nothing there; its standard output is not in the answer. *)
Theorem shell_execute_exit_failure (ex : ShellExecutor) (w : World)
    (command : string) (args : list string) (cwd : option string)
    (env : option (gmap string string)) (timeout : option Z)
    (call : SpawnCall) (pre : list ChildEvent) (code : option Z)
    (rest : list ChildEvent) :
  In call (spawned (executeCommand ex w command args cwd env timeout)) ->
  os_spawn w call = ChildRuns (pre ++ Close code :: rest) ->
  forallb is_data pre = true ->
  code <> Some 0 ->
  shell_execute ex w command args cwd env timeout
  = Resolved
      (mkResponse
         ("Error: "
          +:+ (if Js.truthy_string (captured_stderr pre)
               then captured_stderr pre else "Unknown error"))
         true).
Proof.
  intros Hin Hos Hpre Hcode. unfold shell_execute.
  destruct (executeCommand_spawned_inv _ _ _ _ _ _ _ _ Hin)
    as (wd & _ & _ & _ & Hcall & ->).
  rewrite Hcall in Hos |- *. simpl call_options.
  rewrite (spawnCommand_first_terminal _ _ _ _ _ _ _
             {| stdout := captured_stdout pre;
                stderr := captured_stderr pre;
                exitCode := match code with Some c => c | None => 1 end;
                success := match code with
                           | Some c => c =? 0
                           | None => false
                           end;
                error := None |} Hos Hpre) by reflexivity.
  simpl. unfold render_result, error_text. simpl.
  assert (match code with Some c => c =? 0 | None => false end = false)
    as ->.
  { destruct code as [c|]; [|reflexivity].
    apply Z.eqb_neq. intros ->. now apply Hcode. }
  reflexivity.
Qed.

Lemma shell_execute_exit_failure_witness :
  shell_execute (new_ShellExecutor "/srv/app" ∅)
    (mkWorld "/" (fun _ => true)
       (fun _ => ChildRuns [StdoutData "3 tests failed"; Close (Some 2)]))
    "npm" ["test"] None None None
  = Resolved (mkResponse "Error: Unknown error" true).
Proof.
  refine (shell_execute_exit_failure (new_ShellExecutor "/srv/app" ∅)
            (mkWorld "/" (fun _ => true)
               (fun _ => ChildRuns [StdoutData "3 tests failed";
                                    Close (Some 2)]))
            "npm" ["test"] None None None
            (mkCall "npm" ["test"] (mkOptions "/srv/app" ∅ 60000))
            [StdoutData "3 tests failed"] (Some 2) [] _ eq_refl eq_refl _).
  - vm_compute. left. reflexivity.
  - discriminate.
Defined.

Lemma validateWorkingDirectory_message (ex : ShellExecutor) (w : World)
    (cwd : option string) (message : string) :
  validateWorkingDirectory ex w cwd = Throws message ->
  Js.truthy_string message = true.
Proof.
  unfold validateWorkingDirectory. destruct cwd as [d|]; [|discriminate].
  destruct (Js.truthy_string d); simpl; [|discriminate].
  destruct (Js.startsWith _ _); simpl;
    [|intros H; injection H as <-; reflexivity].
  destruct (existsSync w _); simpl; [discriminate|].
  intros H. injection H as <-. reflexivity.
Qed.

(** X24: when [executeCommand] starts no process, its result carries the
    message of the check that failed, which is never empty, in [stderr]
    and in [error], and the answer of the tool is an error whose text is
    [Error: ] followed by that message. *)
Theorem shell_execute_rejected (ex : ShellExecutor) (w : World)
    (command : string) (args : list string) (cwd : option string)
    (env : option (gmap string string)) (timeout : option Z) :
  spawned (executeCommand ex w command args cwd env timeout) = [] ->
  exists message,
    completion (executeCommand ex w command args cwd env timeout)
    = Resolved (createErrorResponse message)
    /\ shell_execute ex w command args cwd env timeout
       = Resolved (mkResponse ("Error: " +:+ message) true)
    /\ Js.truthy_string message = true
    /\ exists r,
         completion (executeCommand ex w command args cwd env timeout)
         = Resolved r
         /\ stderr r = message
         /\ error r = Some message
         /\ success r = false.
Proof.
  unfold shell_execute, executeCommand, executeCommand_try.
  destruct (Js.truthy_string command); simpl;
    [|intros _; eexists; split; [reflexivity|]; split; [reflexivity|];
      split; [reflexivity|]; eexists; split; [reflexivity|];
      simpl; repeat split].
  destruct (isCommandAllowed ex command); simpl;
    [|intros _; eexists; split; [reflexivity|]; split; [reflexivity|];
      split; [reflexivity|]; eexists; split; [reflexivity|];
      simpl; repeat split].
  destruct (validateWorkingDirectory ex w cwd) as [wd|m] eqn:Hv; simpl;
    [discriminate|].
  intros _. exists m. split; [reflexivity|].
  pose proof (validateWorkingDirectory_message _ _ _ _ Hv) as Hm.
  split.
  - unfold render_result, error_text. simpl. now rewrite Hm.
  - split; [exact Hm|]. eexists. split; [reflexivity|]. simpl.
    repeat split.
Qed.

Lemma shell_execute_rejected_witness :
  exists message,
    completion (executeCommand (new_ShellExecutor "/srv/app" ∅)
                  sibling_world "ls" [] (Some "/etc") None None)
    = Resolved (createErrorResponse message)
    /\ shell_execute (new_ShellExecutor "/srv/app" ∅) sibling_world "ls" []
         (Some "/etc") None None
       = Resolved (mkResponse ("Error: " +:+ message) true).
Proof.
  destruct (shell_execute_rejected (new_ShellExecutor "/srv/app" ∅)
              sibling_world "ls" [] (Some "/etc") None None)
    as (message & Hc & Hs & _).
  - vm_compute. reflexivity.
  - exists message. split; assumption.
Defined.

(** X25: when the timer expires first, the answer of the tool is the
    error that states the timeout; the standard output captured until
    then is not in the answer. *)
Theorem shell_execute_timeout (ex : ShellExecutor) (w : World)
    (command : string) (args : list string) (cwd : option string)
    (env : option (gmap string string)) (timeout : option Z)
    (call : SpawnCall) (pre rest : list ChildEvent) :
  reachable ex ->
  In call (spawned (executeCommand ex w command args cwd env timeout)) ->
  os_spawn w call = ChildRuns (pre ++ TimerFires :: rest) ->
  forallb is_data pre = true ->
  shell_execute ex w command args cwd env timeout
  = Resolved
      (mkResponse
         ("Error: " +:+ timeout_stderr (effectiveTimeout ex timeout)) true).
Proof.
  intros Hre Hin Hos Hpre. unfold shell_execute.
  destruct (executeCommand_spawned_inv _ _ _ _ _ _ _ _ Hin)
    as (wd & _ & _ & _ & Hcall & ->).
  rewrite Hcall in Hos |- *. simpl call_options.
  rewrite (spawnCommand_first_terminal _ _ _ _ _ _ _
             {| stdout := captured_stdout pre;
                stderr := timeout_stderr (effectiveTimeout ex timeout);
                exitCode := 1;
                success := false;
                error := Some timeout_error |} Hos Hpre);
    [reflexivity|].
  simpl. rewrite effectiveTimeout_truthy; [reflexivity|].
  rewrite (reachable_maxTimeout _ Hre). discriminate.
Qed.

Lemma shell_execute_timeout_witness :
  shell_execute (new_ShellExecutor "/srv/app" ∅) slow_world "node"
    ["server.js"] None None (Some 1000)
  = Resolved (mkResponse ("Error: " +:+ timeout_stderr 1000) true).
Proof.
  refine (shell_execute_timeout (new_ShellExecutor "/srv/app" ∅) slow_world
            "node" ["server.js"] None None (Some 1000)
            (mkCall "node" ["server.js"] (mkOptions "/srv/app" ∅ 1000))
            [StdoutData "out"; StderrData "warn"] [Close None]
            (reachable_new "/srv/app" ∅) _ eq_refl eq_refl).
  vm_compute. left. reflexivity.
Defined.

Lemma join_sep_snoc (sep : string) (l : list string) (x : string) :
  l <> [] -> Js.join sep (l ++ [x]) = Js.join sep l +:+ sep +:+ x.
Proof.
  induction l as [|a l IH]; intros H; [contradiction|].
  destruct l as [|b l]; [reflexivity|].
  change (Js.join sep ((a :: b :: l) ++ [x]))
    with (a +:+ sep +:+ Js.join sep ((b :: l) ++ [x])).
  rewrite IH by discriminate.
  change (Js.join sep (a :: b :: l)) with (a +:+ sep +:+ Js.join sep (b :: l)).
  now rewrite !string_app_assoc.
Qed.

(** X26: allowing a command that was not allowed shows in the listing of
    [shell_get_allowed_commands] as that command added at the end, after
    a comma and a space. *)
Theorem shell_get_allowed_commands_allow (ex : ShellExecutor) (n : string) :
  allowedCommands ex <> [] ->
  ~ In n (allowedCommands ex) ->
  response_text (shell_get_allowed_commands (allowCommand ex n))
  = response_text (shell_get_allowed_commands ex) +:+ ", " +:+ n.
Proof.
  intros Hne Hin. apply has_false_not_In in Hin.
  unfold shell_get_allowed_commands, getAllowedCommands, allowCommand.
  simpl. unfold JsSet.add. rewrite Hin, (join_sep_snoc _ _ _ Hne).
  reflexivity.
Qed.

Lemma shell_get_allowed_commands_allow_witness :
  response_text
    (shell_get_allowed_commands
       (allowCommand (new_ShellExecutor "/srv/app" ∅) "curl"))
  = response_text (shell_get_allowed_commands (new_ShellExecutor "/srv/app" ∅))
    +:+ ", " +:+ "curl".
Proof.
  apply shell_get_allowed_commands_allow.
  - vm_compute. discriminate.
  - apply has_false_not_In. vm_compute. reflexivity.
Defined.
